(** * Zenith: the page compiler, its route table and the route resolver

    A shallow embedding of the TypeScript sources of zenith.js:

    - [compiler/parse.ts]  ([parseZen]),
    - [compiler/split.ts]  ([transformEventAttributes], [splitZen]),
    - [compiler/event.ts]  ([generateEventBindingRuntime] and the [delegate]
      listener it generates),
    - [compiler/emit.ts]   ([emit]),
    - [compiler/index.ts]  ([compile], in its two revisions),
    - the routing design document (the build loop, [filePathToRoute], the
      output-file derivation it proposes and the serve-time resolver).

    The parse5 package, [JSON.stringify] and the compiler modules that are
    not among the sources are parameters of what uses them.

    JavaScript strings are modelled as [string] (sequences of 8-bit code
    units), the file system as a finite map from normalised paths to entries,
    and code that throws as a state-and-error monad over that file system. *)

From Stdlib Require Import Ascii.
From Stdlib Require String DecimalString DecimalNat.
From stdpp Require Import gmap strings list sorting.

Set Warnings "-register-all".

(* ===================================================================== *)
(** * JavaScript string primitives used by the sources *)
(* ===================================================================== *)

Module Js.

(** The line feed and the double quote, which the sources write inside
    template literals. *)
Definition nl : string := String "010"%char EmptyString.
Definition dq : string := String "034"%char EmptyString.

(** [s.startsWith(p)]. *)
Definition startsWith (s p : string) : bool := String.prefix p s.

(** [s.endsWith(suffix)]. *)
Definition endsWith (s suffix : string) : bool :=
  let n := String.length s in
  let k := String.length suffix in
  (k <=? n) && String.eqb (String.substring (n - k) k s) suffix.

(** [s.slice(k)] for a literal [k >= 0]. *)
Definition slice_from (k : nat) (s : string) : string :=
  String.substring k (String.length s - k) s.

(** [s.slice(0, -k)] for a literal [k > 0]. *)
Definition slice_until_last (k : nat) (s : string) : string :=
  String.substring 0 (String.length s - k) s.

(** [s.includes(pat)]. *)
Fixpoint includes (s pat : string) : bool :=
  String.prefix pat s ||
  match s with
  | EmptyString => false
  | String _ rest => includes rest pat
  end.

(** [s.replace(pat, rep)] with a string pattern: only the first occurrence is
    replaced.  (No replacement text of the sources holds a dollar sign, so the
    replacement patterns of JavaScript play no role.) *)
Fixpoint replace (s pat rep : string) : string :=
  if String.prefix pat s then rep +:+ slice_from (String.length pat) s
  else match s with
       | EmptyString => EmptyString
       | String c rest => String c (replace rest pat rep)
       end.

(** [s.toLowerCase()] on the Latin letters. *)
Definition lower_char (c : ascii) : ascii :=
  let n := nat_of_ascii c in
  if (65 <=? n) && (n <=? 90) then ascii_of_nat (n + 32) else c.

Fixpoint toLowerCase (s : string) : string :=
  match s with
  | EmptyString => EmptyString
  | String c rest => String (lower_char c) (toLowerCase rest)
  end.

(** A number interpolated in a template literal. *)
Definition of_nat (n : nat) : string :=
  DecimalString.NilZero.string_of_uint (Nat.to_uint n).

(** [xs.join(sep)]. *)
Definition join (sep : string) (xs : list string) : string :=
  String.concat sep xs.

(** A value used as a condition: the empty string is falsy. *)
Definition truthy (s : string) : bool := negb (String.eqb s EmptyString).

(** [s.split(sep)] for a one-character separator. *)
Fixpoint split (sep : ascii) (s : string) : list string :=
  match s with
  | EmptyString => [EmptyString]
  | String c rest =>
      if Ascii.eqb c sep then EmptyString :: split sep rest
      else match split sep rest with
           | h :: t => String c h :: t
           | [] => [String c EmptyString]
           end
  end.

End Js.

(* ===================================================================== *)
(** * Node's [path] and [fs] modules, as far as the sources use them *)
(* ===================================================================== *)

Module Path.

(** A normalised path: its segments, outermost first, with the empty and
    the [.] segments dropped and [..] resolved where it can be.  An absolute
    path starts with the segment ["/"], which no relative path can hold; a
    relative path is read from the working directory. *)
Definition push_segment (stack : list string) (seg : string) : list string :=
  if decide (seg = "" ∨ seg = ".") then stack
  else if decide (seg = "..") then
    match stack with
    | top :: below =>
        if decide (top = "..") then seg :: stack
        else if decide (top = "/") then stack
        else below
    | [] => [seg]
    end
  else seg :: stack.

Definition normalize (p : string) : list string :=
  rev (foldl push_segment (if Js.startsWith p "/" then ["/"] else [])
         (Js.split "/" p)).

(** [path.join(a, b)]: the non-empty parts joined by a slash, normalised. *)
Definition join (a b : string) : list string :=
  normalize (Js.join "/" (filter (λ s, s ≠ "") [a; b])).

(** [path.dirname(p)], up to the normalisation every use applies afterwards. *)
Fixpoint drop_trailing_empty (segs : list string) : list string :=
  match segs with
  | [] => []
  | s :: rest =>
      match drop_trailing_empty rest with
      | [] => if decide (s = "") then [] else [s]
      | rest' => s :: rest'
      end
  end.

Definition dirname (p : string) : string :=
  let d := Js.join "/" (removelast (drop_trailing_empty (Js.split "/" p))) in
  if decide (d = "") then (if Js.startsWith p "/" then "/" else ".") else d.

(** [path.relative(from, to)] (POSIX), for two absolute paths or two paths
    inside the working directory: climb out of what [from] does not share
    with [to], then descend. *)
Fixpoint strip_common (from to : list string) : list string * list string :=
  match from, to with
  | f :: from', t :: to' =>
      if decide (f = t) then strip_common from' to' else (from, to)
  | _, _ => (from, to)
  end.

Definition relative (from to : string) : string :=
  let '(up, down) := strip_common (normalize from) (normalize to) in
  Js.join "/" (replicate (length up) ".." ++ down).

End Path.

Module Fs.

Inductive entry : Type :=
| File (content : string)
| Dir.

(** The state of the disk: what there is at each normalised path.  The working
    directory [[]] and the root [["/"]] are directories that always exist.
    Every function below takes its path normalised ([Path.normalize],
    [Path.join]), as Node resolves it before it touches the disk. *)
Abbreviation FS := (gmap (list string) entry).

(** What a call that may throw yields. *)
Inductive result (A : Type) : Type :=
| Ok (a : A)
| Throw.
Arguments Ok {A} a.
Arguments Throw {A}.

(** A computation over the disk: the disk after it, and its value or the fact
    that it threw.  What was written before a throw stays written. *)
Definition IO (A : Type) : Type := FS → FS * result A.

Definition ret {A} (a : A) : IO A := λ fs, (fs, Ok a).
Definition throw {A} : IO A := λ fs, (fs, Throw).
Definition bind {A B} (m : IO A) (k : A → IO B) : IO B :=
  λ fs, match m fs with
        | (fs', Ok a) => k a fs'
        | (fs', Throw) => (fs', Throw)
        end.

Definition is_root (p : list string) : bool :=
  bool_decide (p = [] ∨ p = ["/"]).

Definition is_dir (fs : FS) (p : list string) : bool :=
  is_root p || match fs !! p with Some Dir => true | _ => false end.

Definition exists_at (fs : FS) (p : list string) : bool :=
  is_root p || match fs !! p with Some _ => true | None => false end.

(** [fs.existsSync(p)]: never throws. *)
Definition existsSync (p : list string) : IO bool :=
  λ fs, (fs, Ok (exists_at fs p)).

(** [fs.existsSync(p)] on a path as the caller wrote it: the empty text names
    nothing. *)
Definition exists_text (fs : FS) (p : string) : bool :=
  if decide (p = "") then false else exists_at fs (Path.normalize p).

Definition existsSync_text (p : string) : IO bool :=
  λ fs, (fs, Ok (exists_text fs p)).

(** [fs.mkdirSync(p, { recursive: true })]: every missing directory on the way
    is made; a file in the way throws. *)
Fixpoint mkdir_each (made : list string) (todo : list string) : IO unit :=
  match todo with
  | [] => ret tt
  | seg :: rest =>
      let here := made ++ [seg] in
      λ fs, match fs !! here with
            | Some (File _) => (fs, Throw)
            | Some Dir => mkdir_each here rest fs
            | None =>
                if is_root here then mkdir_each here rest fs
                else mkdir_each here rest (<[here := Dir]> fs)
            end
  end.

Definition mkdirSync_recursive (p : list string) : IO unit :=
  mkdir_each [] p.

(** [fs.writeFileSync(p, data)]: the parent must be a directory and [p] must
    not be one. *)
Definition writeFileSync (p : list string) (data : string) : IO unit :=
  λ fs, if is_dir fs p then (fs, Throw)
        else if is_dir fs (removelast p) then (<[p := File data]> fs, Ok tt)
        else (fs, Throw).

(** [fs.readFileSync(p, "utf-8")]. *)
Definition readFileSync (p : list string) : IO string :=
  λ fs, match fs !! p with
        | Some (File content) => (fs, Ok content)
        | _ => (fs, Throw)
        end.

(** [fs.copyFileSync(src, dest)]. *)
Definition copyFileSync (src dest : list string) : IO unit :=
  λ fs, match fs !! src with
        | Some (File content) => writeFileSync dest content fs
        | _ => (fs, Throw)
        end.

(** [fs.rmSync(p, { recursive: true, force: true })]: [p] and all below it go;
    a missing [p] is no error. *)
Definition rmSync_recursive_force (p : list string) : IO unit :=
  λ fs, (filter (λ kv, ¬ p `prefix_of` kv.1) fs, Ok tt).

End Fs.

#[global] Instance io_ret : MRet Fs.IO := @Fs.ret.
#[global] Instance io_bind : MBind Fs.IO := λ A B k m, Fs.bind m k.

(* ===================================================================== *)
(** * The document tree of parse5 *)
(* ===================================================================== *)

Module Dom.

Record attr : Type := Attr { name : string; value : string }.

(** A node as the default tree adapter builds it: elements carry [attrs] and
    [childNodes], text nodes carry [value], the document carries only
    [childNodes].  A field a node does not have is [None]. *)
Inductive node : Type :=
| Node (nodeName : string) (attrs : option (list attr))
       (value : option string) (childNodes : option (list node)).

Definition nodeName (n : node) : string :=
  match n with Node nm _ _ _ => nm end.
Definition attrs (n : node) : option (list attr) :=
  match n with Node _ a _ _ => a end.
Definition node_value (n : node) : option string :=
  match n with Node _ _ v _ => v end.
Definition childNodes (n : node) : option (list node) :=
  match n with Node _ _ _ c => c end.

(** The children a [forEach] over [childNodes] visits. *)
Definition children (n : node) : list node := default [] (childNodes n).

(** Document order: a node, then its subtrees from left to right. *)
Fixpoint preorder (n : node) : list node :=
  match n with
  | Node _ _ _ c =>
      n :: match c with
           | Some cs => (fix each (cs : list node) : list node :=
                           match cs with
                           | [] => []
                           | c :: cs' => preorder c ++ each cs'
                           end) cs
           | None => []
           end
  end.

End Dom.

(* ===================================================================== *)
(** * compiler/parse.ts *)
(* ===================================================================== *)

Module Parse.
Import Dom.

Record Block : Type := { content : string; index : nat }.
Abbreviation ScriptBlock := Block.
Abbreviation StyleBlock := Block.

Record ZenFile : Type :=
  { html : string; scripts : list ScriptBlock; styles : list StyleBlock }.

(** [node.childNodes?.length] as a condition. *)
Definition has_childNodes (n : node) : bool :=
  match childNodes n with
  | Some (_ :: _) => true
  | _ => false
  end.

Definition extractTextContent (n : node) : string :=
  if has_childNodes n then
    Js.join "" (map (λ c, default "" (node_value c))
                  (filter (λ c, nodeName c = "#text") (children n)))
  else "".

(** The variables [walk] closes over. *)
Record walk_state : Type :=
  { st_scripts : list ScriptBlock; st_styles : list StyleBlock;
    scriptIndex : nat; stylesIndex : nat }.

Definition visit (n : node) (st : walk_state) : walk_state :=
  let st :=
    if bool_decide (nodeName n = "script") && has_childNodes n then
      {| st_scripts := st_scripts st ++
           [{| content := extractTextContent n; index := scriptIndex st |}];
         st_styles := st_styles st;
         scriptIndex := S (scriptIndex st);
         stylesIndex := stylesIndex st |}
    else st in
  if bool_decide (nodeName n = "style") && has_childNodes n then
    {| st_scripts := st_scripts st;
       st_styles := st_styles st ++
           [{| content := extractTextContent n; index := stylesIndex st |}];
       scriptIndex := scriptIndex st;
       stylesIndex := S (stylesIndex st) |}
  else st.

Fixpoint walk (n : node) (st : walk_state) : walk_state :=
  match n with
  | Node _ _ _ c =>
      let st := visit n st in
      match c with
      | Some cs => (fix each (cs : list node) (st : walk_state) : walk_state :=
                      match cs with
                      | [] => st
                      | c :: cs' => each cs' (walk c st)
                      end) cs st
      | None => st
      end
  end.

Section parseZen.
(** [parse5.parse], from the parse5 package. *)
Variable parse5_parse : string → node.

Definition parseZen (path : string) : Fs.IO ZenFile :=
  source ← Fs.readFileSync (Path.normalize path);
  let document := parse5_parse source in
  let st := walk document
              {| st_scripts := []; st_styles := [];
                 scriptIndex := 0; stylesIndex := 0 |} in
  mret {| html := source; scripts := st_scripts st; styles := st_styles st |}.
End parseZen.

End Parse.

(* ===================================================================== *)
(** * compiler/split.ts *)
(* ===================================================================== *)

Module Split.
Import Dom.

(** [eventTypes.add(x)] on a [Set]: insertion order, no repetition. *)
Definition set_add (x : string) (s : list string) : list string :=
  if decide (x ∈ s) then s else s ++ [x].

(** [xs.sort()] with the default comparison, by code units. *)
Definition sort (xs : list string) : list string := merge_sort String.le xs.

(** The callback of [node.attrs.map] in [walk]. *)
Definition transform_attr (a : attr) (eventTypes : list string)
  : attr * list string :=
  let attrName := Js.toLowerCase (name a) in
  if Js.startsWith attrName "on" && (2 <? String.length attrName) then
    let eventType := Js.slice_from 2 attrName in
    ({| name := "data-zen-" +:+ eventType; value := value a |},
     set_add eventType eventTypes)
  else (a, eventTypes).

Fixpoint transform_attrs (l : list attr) (eventTypes : list string)
  : list attr * list string :=
  match l with
  | [] => ([], eventTypes)
  | a :: l' =>
      let '(a', eventTypes) := transform_attr a eventTypes in
      let '(l'', eventTypes) := transform_attrs l' eventTypes in
      (a' :: l'', eventTypes)
  end.

(** [walk] rewrites the tree in place and fills [eventTypes]: here it returns
    the rewritten node and the set. *)
Fixpoint walk (n : node) (eventTypes : list string) : node * list string :=
  match n with
  | Node nm a v c =>
      let '(a, eventTypes) :=
        match a with
        | Some l => let '(l', ev) := transform_attrs l eventTypes in (Some l', ev)
        | None => (None, eventTypes)
        end in
      match c with
      | Some cs =>
          let '(cs', eventTypes) :=
            (fix each (cs : list node) (ev : list string)
               : list node * list string :=
               match cs with
               | [] => ([], ev)
               | c :: cs' =>
                   let '(c', ev) := walk c ev in
                   let '(cs'', ev) := each cs' ev in
                   (c' :: cs'', ev)
               end) cs eventTypes in
          (Node nm a v (Some cs'), eventTypes)
      | None => (Node nm a v None, eventTypes)
      end
  end.

(** [html.replace(/<tag[^>]*>[\s\S]*?<\/tag>/gi, '')].  A match starts where
    the text reads [<tag] in any case, runs over the first [>] after it and
    ends with the first [</tag>], in any case, after that; with no such end
    there is no match at that place.  [lowered] is the text in lower case,
    read in step with the text; [skip] counts the characters of a match still
    to drop. *)
Definition match_length (tag lowered : string) : option nat :=
  if String.prefix ("<" +:+ tag) lowered then
    match String.index (String.length tag + 1) ">" lowered with
    | Some gt =>
        match String.index (gt + 1) ("</" +:+ tag +:+ ">") lowered with
        | Some close => Some (close + String.length tag + 3)
        | None => None
        end
    | None => None
    end
  else None.

Fixpoint remove_matches (tag text lowered : string) (skip : nat) : string :=
  match text, lowered with
  | String c text', String _ lowered' =>
      match skip with
      | S skip' => remove_matches tag text' lowered' skip'
      | 0 =>
          match match_length tag lowered with
          | Some len => remove_matches tag text' lowered' (len - 1)
          | None => String c (remove_matches tag text' lowered' 0)
          end
      end
  | _, _ => ""
  end.

Definition remove_tag (tag html : string) : string :=
  remove_matches tag html (Js.toLowerCase html) 0.

Definition stripScriptAndStyleTags (html : string) : string :=
  let html := remove_tag "script" html in
  remove_tag "style" html.

Record split_result : Type :=
  { html : string; scripts : list string; styles : list string;
    eventTypes : list string }.

Section splitZen.
(** [parse5.parse] and [parse5.serialize], from the parse5 package. *)
Variable parse5_parse : string → node.
Variable parse5_serialize : node → string.

Definition transformEventAttributes (html : string) : string * list string :=
  let document := parse5_parse html in
  let '(document, eventTypes) := walk document [] in
  (parse5_serialize document, eventTypes).

Definition splitZen (file : Parse.ZenFile) : split_result :=
  let '(transformedHtml, eventTypes) :=
    transformEventAttributes (Parse.html file) in
  {| html := stripScriptAndStyleTags transformedHtml;
     scripts := map Parse.content (Parse.scripts file);
     styles := map Parse.content (Parse.styles file);
     eventTypes := sort eventTypes |}.
End splitZen.

End Split.

(* ===================================================================== *)
(** * compiler/event.ts *)
(* ===================================================================== *)

Module Event.

Section generateEventBindingRuntime.
(** [JSON.stringify] on an array of strings. *)
Variable JSON_stringify : list string → string.

Definition runtime_head : list string :=
  [ "";
    "// Phase 2 runtime helpers - DOM manipulation methods on HTMLElement prototype";
    "HTMLElement.prototype.show = function() { this.style.display = "
      +:+ Js.dq +:+ "block" +:+ Js.dq +:+ "; }";
    "HTMLElement.prototype.hide = function() { this.style.display = "
      +:+ Js.dq +:+ "none" +:+ Js.dq +:+ "; }";
    "HTMLElement.prototype.addClass = function(name) { this.classList.add(name); }";
    "HTMLElement.prototype.removeClass = function(name) { this.classList.remove(name); }";
    "HTMLElement.prototype.setText = function(text) { this.textContent = text; }";
    "HTMLElement.prototype.setHTML = function(html) { this.innerHTML = html; }";
    "";
    "// Phase 2: Dynamic delegated event listener - single generic function for all event types";
    "function delegate(event) {";
    "  let type = event.type;";
    "  let el = event.target;";
    "  while (el && !el.hasAttribute(`data-zen-${type}`)) el = el.parentElement;";
    "  const handlerName = el?.getAttribute(`data-zen-${type}`);";
    "  if (handlerName && typeof window[handlerName] === "
      +:+ Js.dq +:+ "function" +:+ Js.dq +:+ ") {";
    "    window[handlerName](event, el);";
    "  }";
    "}";
    "";
    "// Attach delegate function to all detected event types dynamically" ].

Definition runtime_tail : list string :=
  [ ";";
    "zenEvents.forEach(type => {";
    "  document.addEventListener(type, delegate);";
    "});";
    "" ].

Definition generateEventBindingRuntime (eventTypes : list string) : string :=
  let eventTypesStr := JSON_stringify eventTypes in
  Js.join Js.nl runtime_head +:+ Js.nl +:+ "const zenEvents = "
    +:+ eventTypesStr +:+ Js.join Js.nl runtime_tail.
End generateEventBindingRuntime.

(** ** The generated [delegate] listener, run on a model of the DOM *)

(** An element: its attributes and its [parentElement] ([None] for null). *)
Inductive element : Type :=
| Element (attributes : list (string * string)) (parentElement : option element).

Definition attributes (el : element) : list (string * string) :=
  match el with Element a _ => a end.
Definition parentElement (el : element) : option element :=
  match el with Element _ p => p end.

Definition getAttribute (el : element) (qualifiedName : string) : option string :=
  snd <$> find (λ kv, bool_decide (kv.1 = qualifiedName)) (attributes el).
Definition hasAttribute (el : element) (qualifiedName : string) : bool :=
  bool_decide (is_Some (getAttribute el qualifiedName)).

(** What [event.target] can be for a listener on the document: null, an
    element, or an event target that is no element (the document itself, for
    an event fired at it), which has no [hasAttribute]. *)
Inductive event_target : Type :=
| TargetNull
| TargetElement (el : element)
| TargetDocument.

Record event : Type := { type : string; target : event_target }.

(** A property of [window]. *)
Inductive global : Type :=
| GlobalFunction
| GlobalOther.

(** [typeof window[handlerName] === "function"]. *)
Definition is_function (g : option global) : bool :=
  match g with
  | Some GlobalFunction => true
  | _ => false
  end.

(** How a call of [delegate] ends. *)
Inductive outcome : Type :=
| Returned
| Invoked (handlerName : string) (el : element)
| TypeError.

(** [while (el && !el.hasAttribute(a)) el = el.parentElement], from an
    element: the element the loop leaves in [el], or null. *)
Fixpoint nearest_marked (a : string) (el : element) : option element :=
  match el with
  | Element _ parent =>
      if hasAttribute el a then Some el
      else match parent with
           | Some p => nearest_marked a p
           | None => None
           end
  end.

Definition delegate (window : string → option global) (ev : event) : outcome :=
  let a := "data-zen-" +:+ type ev in
  match target ev with
  | TargetNull => Returned
  | TargetDocument => TypeError
  | TargetElement el0 =>
      match nearest_marked a el0 with
      | None => Returned
      | Some el =>
          match getAttribute el a with
          | Some handlerName =>
              if Js.truthy handlerName && is_function (window handlerName)
              then Invoked handlerName el
              else Returned
          | None => Returned
          end
      end
  end.

End Event.

(* ===================================================================== *)
(** * compiler/emit.ts *)
(* ===================================================================== *)

Module Emit.

Definition styleLink (i : nat) : string :=
  "<link rel=" +:+ Js.dq +:+ "stylesheet" +:+ Js.dq +:+ " href=" +:+ Js.dq
    +:+ "./style-" +:+ Js.of_nat i +:+ ".css" +:+ Js.dq +:+ ">".

Definition scriptTag (i : nat) : string :=
  "<script src=" +:+ Js.dq +:+ "./script-" +:+ Js.of_nat i +:+ ".js" +:+ Js.dq
    +:+ " defer></script>".

Definition faviconLink : string :=
  "<link rel=" +:+ Js.dq +:+ "icon" +:+ Js.dq +:+ " type=" +:+ Js.dq
    +:+ "image/x-icon" +:+ Js.dq +:+ " href=" +:+ Js.dq +:+ "./favicon.ico"
    +:+ Js.dq +:+ ">".

(** The text written to the HTML file. *)
Definition outputHTML (html : string) (scripts styles : list string) : string :=
  let styleLinks := Js.join Js.nl (imap (λ i _, styleLink i) styles) in
  let scriptTags := Js.join Js.nl (imap (λ i _, scriptTag i) scripts) in
  let outputHTML := html in
  let outputHTML :=
    if Js.includes outputHTML "</head>" then
      Js.replace outputHTML "</head>" (faviconLink +:+ Js.nl +:+ "</head>")
    else if Js.includes outputHTML "<head>" then
      Js.replace outputHTML "<head>" ("<head>" +:+ Js.nl +:+ faviconLink)
    else faviconLink +:+ Js.nl +:+ outputHTML in
  let outputHTML :=
    if Js.truthy styleLinks then
      if Js.includes outputHTML "</head>" then
        Js.replace outputHTML "</head>" (styleLinks +:+ Js.nl +:+ "</head>")
      else styleLinks +:+ Js.nl +:+ outputHTML
    else outputHTML in
  if Js.truthy scriptTags then
    if Js.includes outputHTML "</body>" then
      Js.replace outputHTML "</body>" (scriptTags +:+ Js.nl +:+ "</body>")
    else outputHTML +:+ Js.nl +:+ scriptTags
  else outputHTML.

(** [contents.forEach((content, i) => fs.writeFileSync(name(i), content))],
    from index [i] on. *)
Fixpoint write_each (name : nat → list string) (i : nat)
  (contents : list string) : Fs.IO unit :=
  match contents with
  | [] => mret tt
  | content :: rest =>
      Fs.writeFileSync (name i) content;;
      write_each name (S i) rest
  end.

Definition copy_favicon (outDir : string) (entryPath : option string)
  : Fs.IO unit :=
  match entryPath with
  | Some entryPath =>
      if Js.truthy entryPath then
        let entryDir := Path.dirname entryPath in
        let faviconPath := Path.join entryDir "favicon.ico" in
        present ← Fs.existsSync faviconPath;
        if present : bool
        then Fs.copyFileSync faviconPath (Path.join outDir "favicon.ico")
        else mret tt
      else mret tt
  | None => mret tt
  end.

Definition emit (outDir html : string) (scripts styles : list string)
  (entryPath : option string) : Fs.IO unit :=
  Fs.mkdirSync_recursive (Path.normalize outDir);;
  copy_favicon outDir entryPath;;
  Fs.writeFileSync (Path.join outDir "index.html")
    (outputHTML html scripts styles);;
  write_each (λ i, Path.join outDir ("script-" +:+ Js.of_nat i +:+ ".js"))
    0 scripts;;
  write_each (λ i, Path.join outDir ("style-" +:+ Js.of_nat i +:+ ".css"))
    0 styles.

End Emit.

(* ===================================================================== *)
(** * compiler/index.ts *)
(* ===================================================================== *)

(** The revision that only knows the event runtime. *)
Module CompilerIndex.

Definition scriptsWithEvents (runtimeSnippet : string) (scripts : list string)
  : list string :=
  map (λ s, if Js.truthy runtimeSnippet
            then s +:+ Js.nl +:+ Js.nl +:+ runtimeSnippet
            else s) scripts.

Section compile.
Variable parse5_parse : string → Dom.node.
Variable parse5_serialize : Dom.node → string.
Variable JSON_stringify : list string → string.

Definition compile (entry outDir : string) : Fs.IO unit :=
  zen ← Parse.parseZen parse5_parse entry;
  let r := Split.splitZen parse5_parse parse5_serialize zen in
  let runtimeSnippet :=
    Event.generateEventBindingRuntime JSON_stringify (Split.eventTypes r) in
  Emit.emit outDir (Split.html r)
    (scriptsWithEvents runtimeSnippet (Split.scripts r)) (Split.styles r)
    (Some entry).
End compile.

End CompilerIndex.

(** The revision with component processing and the binding runtimes. *)
Module Compiler.

(** The callback of [scripts.map] in [compile]. *)
Definition with_runtime
  (bindingRuntime attributeBindingRuntime eventRuntime : string)
  (s : string) (index : nat) : string :=
  let result := "" in
  let result :=
    if Js.truthy bindingRuntime
    then result +:+ bindingRuntime +:+ Js.nl +:+ Js.nl else result in
  let result :=
    if Js.truthy attributeBindingRuntime
    then result +:+ attributeBindingRuntime +:+ Js.nl +:+ Js.nl else result in
  let result := result +:+ s in
  if Js.truthy eventRuntime && (index =? 0)%nat
  then result +:+ Js.nl +:+ Js.nl +:+ eventRuntime
  else result.

Definition scriptsWithRuntime
  (bindingRuntime attributeBindingRuntime eventRuntime : string)
  (scripts : list string) : list string :=
  imap (λ index s,
          with_runtime bindingRuntime attributeBindingRuntime eventRuntime
            s index) scripts.

(** [if (fs.existsSync(outDir)) fs.rmSync(outDir, ...)]. *)
Definition clear_outDir (outDir : string) : Fs.IO unit :=
  present ← Fs.existsSync_text outDir;
  if present : bool
  then Fs.rmSync_recursive_force (Path.normalize outDir)
  else mret tt.

Section compile.
Variable parse5_parse : string → Dom.node.
Variable parse5_serialize : Dom.node → string.
Variable JSON_stringify : list string → string.
(** [processComponents] of [compiler/component-process.ts], which is not among
    the sources: it inlines components and layouts into the file, reading the
    disk; it may throw and writes nothing. *)
Variable processComponents :
  Parse.ZenFile → string → Fs.FS → Fs.result Parse.ZenFile.
(** What the [splitZen] of this revision returns besides the four fields of
    [Split.split_result] ([stateBindings], [stateDeclarations], [bindings]),
    and the two generators of [compiler/binding.ts] and
    [compiler/bindings.ts] that turn it into text: none is among the
    sources. *)
Variable binding_descriptors : Type.
Variable splitZen_bindings : Parse.ZenFile → binding_descriptors.
Variable generateBindingRuntime : binding_descriptors → string.
Variable generateAttributeBindingRuntime : binding_descriptors → string.

(** What [compile] hands to [emit] for a processed file: [html], the
    [scriptsWithRuntime] and [styles]. *)
Definition page_html (processedZen : Parse.ZenFile) : string :=
  Split.html (Split.splitZen parse5_parse parse5_serialize processedZen).

Definition page_scripts (processedZen : Parse.ZenFile) : list string :=
  let r := Split.splitZen parse5_parse parse5_serialize processedZen in
  let b := splitZen_bindings processedZen in
  let eventRuntime :=
    Event.generateEventBindingRuntime JSON_stringify (Split.eventTypes r) in
  let bindingRuntime := generateBindingRuntime b in
  let attributeBindingRuntime := generateAttributeBindingRuntime b in
  scriptsWithRuntime bindingRuntime attributeBindingRuntime eventRuntime
    (Split.scripts r).

Definition page_styles (processedZen : Parse.ZenFile) : list string :=
  Split.styles (Split.splitZen parse5_parse parse5_serialize processedZen).

Definition compile (entry outDir : string) : Fs.IO unit :=
  clear_outDir outDir;;
  zen ← Parse.parseZen parse5_parse entry;
  processedZen ← (λ fs, (fs, processComponents zen entry fs));
  Emit.emit outDir (page_html processedZen) (page_scripts processedZen)
    (page_styles processedZen) (Some entry).
End compile.

End Compiler.

(* ===================================================================== *)
(** * The routing design document: build script and dev server *)
(* ===================================================================== *)

Module Build.

Definition pagesDir : string := "./playground/pages".
Definition outDir : string := "./playground/dist".

(** [relative.replace(/\.zen$/, "")]. *)
Definition strip_zen (relative : string) : string :=
  if Js.endsWith relative ".zen" then Js.slice_until_last 4 relative
  else relative.

Definition filePathToRoute (filePath pagesDir : string) : string :=
  let relative := Path.relative pagesDir filePath in
  let withoutExt := strip_zen relative in
  if decide (withoutExt = "index") then "/"
  else if Js.endsWith withoutExt "/index"
       then "/" +:+ Js.slice_until_last 6 withoutExt
       else "/" +:+ withoutExt.

(** The output file the document proposes for [emit]. *)
Definition outputFile (route : string) : string :=
  if decide (route = "/") then "index.html"
  else Js.slice_from 1 route +:+ ".html".

(** [for (const pagePath of pages) { ... compile(pagePath, outDir, route) }],
    over a [compile] of two parameters: the route is computed and dropped. *)
Fixpoint compile_pages (compile : string → string → Fs.IO unit)
  (pages : list string) : Fs.IO unit :=
  match pages with
  | [] => mret tt
  | pagePath :: rest =>
      let route := filePathToRoute pagePath pagesDir in
      compile pagePath outDir;;
      compile_pages compile rest
  end.

End Build.

Module Serve.

Definition static_extensions : list string :=
  ["js"; "css"; "ico"; "png"; "jpg"; "svg"].

(** [pathname.match(/\.(js|css|ico|png|jpg|svg)$/)] as a condition. *)
Definition is_static_asset (pathname : string) : bool :=
  existsb (λ ext, Js.endsWith pathname ("." +:+ ext)) static_extensions.

(** The file the server answers [pathname] with. *)
Definition resolve (pathname : string) : Fs.IO string :=
  if is_static_asset pathname then
    mret ("./playground/dist" +:+ pathname)
  else if decide (pathname = "/") then
    mret "./playground/dist/index.html"
  else
    let htmlPath := "./playground/dist" +:+ pathname +:+ ".html" in
    found ← Fs.existsSync (Path.normalize htmlPath);
    if found : bool then mret htmlPath
    else
      let indexPath := "./playground/dist" +:+ pathname +:+ "/index.html" in
      found ← Fs.existsSync (Path.normalize indexPath);
      if found : bool then mret indexPath
      else mret "./playground/dist/index.html".

End Serve.

(** The page discovery of the build script. *)
Module Discover.

(** The text of a normalised path, as [path.join] returns it. *)
Definition format (p : list string) : string :=
  match p with
  | [] => "."
  | seg :: rest =>
      if decide (seg = "/") then "/" +:+ Js.join "/" rest else Js.join "/" p
  end.

(** [fs.readdirSync(p, { withFileTypes: true })]: the entries right under the
    directory [p], each with its name and its kind, in the order the system
    lists them (here the order of the map); it throws when [p] is no
    directory. *)
Definition child_of (p : list string) (kv : list string * Fs.entry)
  : option (string * Fs.entry) :=
  match last kv.1 with
  | Some name => if decide (kv.1 = p ++ [name]) then Some (name, kv.2) else None
  | None => None
  end.

Definition readdirSync (p : list string) : Fs.IO (list (string * Fs.entry)) :=
  λ fs, if Fs.is_dir fs p
        then (fs, Fs.Ok (omap (child_of p) (map_to_list fs)))
        else (fs, Fs.Throw).

(** The loop of [discoverPages] over the entries of [dir]; [recurse] is the
    call of [discoverPages] on a subdirectory. *)
Fixpoint each_entry (recurse : list string → Fs.IO (list string))
  (dir : list string) (entries : list (string * Fs.entry))
  : Fs.IO (list string) :=
  match entries with
  | [] => mret []
  | (name, e) :: rest =>
      let fullPath := dir ++ [name] in
      match e with
      | Fs.Dir =>
          found ← recurse fullPath;
          pages ← each_entry recurse dir rest;
          mret (found ++ pages)
      | Fs.File _ =>
          if Js.endsWith name ".zen" then
            pages ← each_entry recurse dir rest;
            mret (format fullPath :: pages)
          else each_entry recurse dir rest
      end
  end.

(** [discoverPages(dir)], on the normalised [dir]; the recursion follows the
    directory tree, and [depth] bounds how deep it goes. *)
Fixpoint discoverPages_within (depth : nat) (dir : list string)
  : Fs.IO (list string) :=
  match depth with
  | 0 => Fs.throw
  | S depth =>
      entries ← readdirSync dir;
      each_entry (discoverPages_within depth) dir entries
  end.

(** No directory tree on the disk is deeper than the disk has entries. *)
Definition discoverPages (dir : string) : Fs.IO (list string) :=
  λ fs, discoverPages_within (S (size fs)) (Path.normalize dir) fs.

(** The build script: discover the pages, then compile each. *)
Definition build (compile : string → string → Fs.IO unit) : Fs.IO unit :=
  pages ← discoverPages Build.pagesDir;
  Build.compile_pages compile pages.

End Discover.

(* ===================================================================== *)
(** * Vocabulary of the statements *)
(* ===================================================================== *)

Module SplitSpec.
Import Dom.


(** The word of an event attribute, [None] for any other attribute. *)
Definition event_word (a : attr) : option string :=
  let attrName := Js.toLowerCase (name a) in
  if Js.startsWith attrName "on" && (2 <? String.length attrName)
  then Some (Js.slice_from 2 attrName) else None.

(** What the rewrite makes of one attribute. *)
Definition marker_of (a : attr) : attr :=
  match event_word a with
  | Some w => {| name := "data-zen-" +:+ w; value := value a |}
  | None => a
  end.

(** The same tree with [f] applied to every attribute of every node. *)
Fixpoint map_attrs (f : attr → attr) (n : node) : node :=
  match n with
  | Node nm a v c =>
      Node nm (option_map (map f) a) v (option_map (map (map_attrs f)) c)
  end.

(** The attributes of a tree, in the order the walk meets them. *)
Definition all_attrs (n : node) : list attr :=
  preorder n ≫= (λ m, default [] (attrs m)).

(** The words of the event attributes of a tree, in that order. *)
Definition event_words (n : node) : list string :=
  omap event_word (all_attrs n).

Definition add_all (ws : list string) (eventTypes : list string) : list string :=
  foldl (λ s w, Split.set_add w s) eventTypes ws.

End SplitSpec.

Module ParseSpec.
Import Dom Parse.

(** An element the parser catalogs under [tag]: it has that name and at least
    one child. *)
Definition cataloged (tag : string) (n : node) : bool :=
  bool_decide (nodeName n = tag) && has_childNodes n.

(** The elements of a document cataloged under [tag], in document order. *)
Definition cataloged_elements (tag : string) (document : node) : list node :=
  filter (λ n, cataloged tag n) (preorder document).

(** Entries for the elements [ns], numbered from [k] on. *)
Fixpoint blocks_from (k : nat) (ns : list node) : list Block :=
  match ns with
  | [] => []
  | n :: ns' =>
      {| content := extractTextContent n; index := k |} :: blocks_from (S k) ns'
  end.

(** The state of the walk after it has met the nodes [ns] in turn. *)
Definition extend (st : walk_state) (ns : list node) : walk_state :=
  let new_scripts := filter (λ n, cataloged "script" n) ns in
  let new_styles := filter (λ n, cataloged "style" n) ns in
  {| st_scripts := st_scripts st ++ blocks_from (scriptIndex st) new_scripts;
     st_styles := st_styles st ++ blocks_from (stylesIndex st) new_styles;
     scriptIndex := scriptIndex st + length new_scripts;
     stylesIndex := stylesIndex st + length new_styles |}.

End ParseSpec.

Module EmitSpec.

(** A string without a slash. *)
Definition no_slash (s : string) : Prop :=
  "/"%char ∉ String.list_ascii_of_string s.

(** A file name: one path segment that names an entry. *)
Definition file_name (s : string) : Prop :=
  no_slash s ∧ s ≠ "" ∧ s ≠ "." ∧ s ≠ "..".

Definition script_name (i : nat) : string := "script-" +:+ Js.of_nat i +:+ ".js".
Definition style_name (i : nat) : string := "style-" +:+ Js.of_nat i +:+ ".css".

(** The names [emit] may write under the output root, for a page with
    [scripts] script slots and [styles] style slots. *)
Definition emitted_name (scripts styles : nat) (name : string) : Prop :=
  name = "index.html" ∨ name = "favicon.ico" ∨
  (∃ i, i < scripts ∧ name = script_name i) ∨
  (∃ i, i < styles ∧ name = style_name i).

End EmitSpec.

Module FsSpec.

(** [m] changes the disk at most at the paths in [S], whether it returns or
    throws. *)
Definition touches {A} (m : Fs.IO A) (S : list string → Prop) : Prop :=
  ∀ fs fs' r q, m fs = (fs', r) → ¬ S q → fs' !! q = fs !! q.

(** The disk with [p] and all below it removed. *)
Definition cleared (p : list string) (fs : Fs.FS) : Fs.FS :=
  filter (λ kv, ¬ p `prefix_of` kv.1) fs.

End FsSpec.

Module CompilerSpec.


End CompilerSpec.

Module EventSpec.
Import Event.


End EventSpec.

Module KeepSpec.
(** [m] removes nothing: what exists before it exists after it. *)
Definition keeps {A} (m : Fs.IO A) : Prop :=
  ∀ fs fs' r q, m fs = (fs', r) →
    Fs.exists_at fs q = true → Fs.exists_at fs' q = true.
End KeepSpec.

Module StripSpec.

(** The character [c] occurs in [s]. *)
Definition has_char (c : ascii) (s : string) : Prop :=
  c ∈ String.list_ascii_of_string s.

End StripSpec.

Module ReadySpec.
End ReadySpec.

Module DiscoverSpec.

(** [p] is a file with the extension [.zen] in the directory [dir] or in a
    directory below it. *)
Inductive page_under (fs : Fs.FS) : list string → list string → Prop :=
| page_here dir name content :
    fs !! (dir ++ [name]) = Some (Fs.File content) →
    Js.endsWith name ".zen" = true →
    page_under fs dir (dir ++ [name])
| page_below dir name p :
    fs !! (dir ++ [name]) = Some Fs.Dir →
    page_under fs (dir ++ [name]) p →
    page_under fs dir p.

(** The entries of the disk strictly below [dir]. *)
Definition below (dir : list string) (fs : Fs.FS) : Fs.FS :=
  filter (λ kv, dir `prefix_of` kv.1 ∧ kv.1 ≠ dir) fs.

End DiscoverSpec.

(* ===================================================================== *)
(** * Two sample pages *)
(* ===================================================================== *)

Module Sample.
Import Dom.

Definition text (s : string) : node := Node "#text" None (Some s) None.
Definition element (nm : string) (cs : list node) : node :=
  Node nm (Some []) None (Some cs).
Definition document (body : list node) : node :=
  Node "#document" None None
    (Some [element "html" [element "head" []; element "body" body]]).

Definition home_source : string :=
  "<p>Home</p><script>one()</script><script>two()</script>".
Definition about_source : string := "<p>About</p><script>go()</script>".

(** The trees parse5 builds for the two sources. *)
Definition home_tree : node :=
  document [element "p" [text "Home"]; element "script" [text "one()"];
            element "script" [text "two()"]].
Definition about_tree : node :=
  document [element "p" [text "About"]; element "script" [text "go()"]].

(** [parse5.parse] at the two sources. *)
Definition parse (source : string) : node :=
  if decide (source = home_source) then home_tree else about_tree.

(** [parse5.serialize] on a tree without attributes and without characters
    to escape. *)
Fixpoint serialize (n : node) : string :=
  match n with
  | Node nm _ v c =>
      let inner :=
        match c with
        | Some cs => (fix each (cs : list node) : string :=
                        match cs with
                        | [] => ""
                        | c :: cs' => serialize c +:+ each cs'
                        end) cs
        | None => ""
        end in
      if decide (nm = "#text") then default "" v
      else if decide (nm = "#document") then inner
      else "<" +:+ nm +:+ ">" +:+ inner +:+ "</" +:+ nm +:+ ">"
  end.

(** [compile] for pages without event attributes ([JSON.stringify] of no
    event type), without components and without bindings. *)
Definition compile : string → string → Fs.IO unit :=
  Compiler.compile parse serialize (λ _, "[]")
    (λ zen _ _, Fs.Ok zen) unit (λ _, tt) (λ _, "") (λ _, "").

(** The sources on the disk before the build. *)
Definition sources : Fs.FS :=
  <[ ["playground"; "pages"; "about.zen"] := Fs.File about_source ]>
  (<[ ["playground"; "pages"; "index.zen"] := Fs.File home_source ]>
  (<[ ["playground"; "pages"] := Fs.Dir ]>
  (<[ ["playground"] := Fs.Dir ]> ∅))).

Definition index_page : string := "playground/pages/index.zen".
Definition about_page : string := "playground/pages/about.zen".

(** The disk after the home page alone was compiled. *)
Definition after_home : Fs.FS := (compile index_page Build.outDir sources).1.

End Sample.

(** An output tree that holds both [about.html] and [about/index.html]. *)
Definition tree_with_both_about : Fs.FS :=
  <[ ["playground"; "dist"; "about"; "index.html"] := Fs.File "nested" ]>
  (<[ ["playground"; "dist"; "about"] := Fs.Dir ]>
  (<[ ["playground"; "dist"; "about.html"] := Fs.File "flat" ]>
  (<[ ["playground"; "dist"; "index.html"] := Fs.File "root" ]>
  (<[ ["playground"; "dist"] := Fs.Dir ]>
  (<[ ["playground"] := Fs.Dir ]> ∅))))).

(** A document whose event attributes are out of order, in mixed case and
    repeated. *)
Definition mixed_document : Dom.node :=
  Dom.Node "#document" None None (Some [
    Dom.Node "button"
      (Some [Dom.Attr "onMouseOver" "hover"; Dom.Attr "id" "b";
             Dom.Attr "ONCLICK" "go"]) None
      (Some [Dom.Node "#text" None (Some "Go") None]);
    Dom.Node "input"
      (Some [Dom.Attr "onchange" "edit"; Dom.Attr "onClick" "go";
             Dom.Attr "on" "nothing"]) None (Some []) ]).


(* ===================================================================== *)
(** * Proofs *)
(* ===================================================================== *)


(* ===================================================================== *)
(** * Facts about the string primitives *)
(* ===================================================================== *)

Section string_facts.
Implicit Types (a b s p suffix : string) (c : ascii).

Lemma str_app_cons c a b : String c a +:+ b = String c (a +:+ b).
Proof. reflexivity. Qed.

Lemma str_app_empty_l b : "" +:+ b = b.
Proof. reflexivity. Qed.

Lemma str_app_empty_r a : a +:+ "" = a.
Proof. induction a as [|c a IH]; [done|]. by rewrite str_app_cons, IH. Qed.

Lemma str_app_assoc a b s : (a +:+ b) +:+ s = a +:+ (b +:+ s).
Proof. induction a as [|c a IH]; [done|]. by rewrite !str_app_cons, IH. Qed.

Lemma str_length_app a b :
  String.length (a +:+ b) = String.length a + String.length b.
Proof. induction a as [|c a IH]; [done|]. rewrite str_app_cons. simpl. by rewrite IH. Qed.

Lemma substring_0_0 s : String.substring 0 0 s = "".
Proof. by destruct s. Qed.

Lemma substring_0_length s : String.substring 0 (String.length s) s = s.
Proof. induction s as [|c s IH]; [done|]. simpl. by rewrite IH. Qed.

Lemma substring_0_app a b :
  String.substring 0 (String.length a) (a +:+ b) = a.
Proof.
  induction a as [|c a IH]; [apply substring_0_0|].
  rewrite str_app_cons. simpl. by rewrite IH.
Qed.

Lemma substring_skip_app a b n m :
  String.substring (String.length a + n) m (a +:+ b) = String.substring n m b.
Proof. induction a as [|c a IH]; [done|]. rewrite str_app_cons. simpl. apply IH. Qed.

Lemma substring_split s n :
  n ≤ String.length s →
  String.substring 0 n s +:+ String.substring n (String.length s - n) s = s.
Proof.
  revert n. induction s as [|c s IH]; intros [|n] Hn; simpl in *; try lia.
  - done.
  - rewrite str_app_empty_l. by rewrite substring_0_length.
  - rewrite str_app_cons. f_equal. apply IH. lia.
Qed.

Lemma endsWith_app p suffix : Js.endsWith (p +:+ suffix) suffix = true.
Proof.
  unfold Js.endsWith. rewrite str_length_app.
  apply andb_true_iff. split; [apply Nat.leb_le; lia|].
  replace (String.length p + String.length suffix - String.length suffix)
    with (String.length p + 0) by lia.
  rewrite substring_skip_app, substring_0_length. apply String.eqb_refl.
Qed.

Lemma endsWith_split s suffix :
  Js.endsWith s suffix = true →
  s = Js.slice_until_last (String.length suffix) s +:+ suffix.
Proof.
  unfold Js.endsWith, Js.slice_until_last.
  intros [Hle Heq]%andb_true_iff.
  apply Nat.leb_le in Hle. apply String.eqb_eq in Heq.
  pose proof (substring_split s (String.length s - String.length suffix))
    as Hsplit.
  replace (String.length s - (String.length s - String.length suffix))
    with (String.length suffix) in Hsplit by lia.
  rewrite Heq in Hsplit. symmetry. apply Hsplit. lia.
Qed.

Lemma endsWith_iff s suffix :
  Js.endsWith s suffix = true ↔ ∃ p, s = p +:+ suffix.
Proof.
  split.
  - intros H. eexists. by apply endsWith_split.
  - intros [p ->]. apply endsWith_app.
Qed.

Lemma slice_until_last_app p suffix :
  Js.slice_until_last (String.length suffix) (p +:+ suffix) = p.
Proof.
  unfold Js.slice_until_last. rewrite str_length_app.
  replace (String.length p + String.length suffix - String.length suffix)
    with (String.length p) by lia.
  apply substring_0_app.
Qed.

Lemma slice_from_app a b : Js.slice_from (String.length a) (a +:+ b) = b.
Proof.
  unfold Js.slice_from. rewrite str_length_app.
  replace (String.length a + String.length b - String.length a)
    with (String.length b) by lia.
  rewrite <-(Nat.add_0_r (String.length a)) at 1.
  rewrite substring_skip_app. apply substring_0_length.
Qed.

Lemma startsWith_iff s p : Js.startsWith s p = true ↔ ∃ b, s = p +:+ b.
Proof.
  unfold Js.startsWith. revert s.
  induction p as [|c p IH]; intros s.
  - split; [intros _; by exists s|intros _; by destruct s].
  - destruct s as [|c' s]; simpl.
    + split; [done|intros [b Hb]; by rewrite str_app_cons in Hb].
    + destruct (ascii_dec c c') as [->|Hne].
      * rewrite IH. split; intros [b Hb]; exists b.
        -- by rewrite str_app_cons, Hb.
        -- rewrite str_app_cons in Hb. by simplify_eq.
      * split; [done|intros [b Hb]]. rewrite str_app_cons in Hb. by simplify_eq.
Qed.

End string_facts.

(* ===================================================================== *)
(** * Route derivation and route resolution *)
(* ===================================================================== *)

Lemma strip_zen_ext w : Build.strip_zen (w +:+ ".zen") = w.
Proof.
  unfold Build.strip_zen. rewrite endsWith_app.
  apply (slice_until_last_app w ".zen").
Qed.

Lemma index_is_no_nested_index p : p +:+ "/index" ≠ "index".
Proof.
  intros H. apply (f_equal String.length) in H.
  rewrite str_length_app in H. simpl in H. lia.
Qed.

(** C3.  [filePathToRoute] strips the [.zen] extension from the path relative
    to the pages root; a result that is exactly [index] gives the pattern [/];
    a result that ends with [/index] gives [/] followed by what stands before
    that suffix; any other result gives [/] followed by the result.  So
    [index.zen] gives [/], [about.zen] gives [/about], [blog/index.zen] gives
    [/blog] and [blog/post.zen] gives [/blog/post], for the pages root of the
    build script too. *)
Theorem filePathToRoute_derivation (filePath pagesDir : string) :
  let relative := Path.relative pagesDir filePath in
  let withoutExt := Build.strip_zen relative in
  let route := Build.filePathToRoute filePath pagesDir in
  (∀ w, relative = w +:+ ".zen" → withoutExt = w) ∧
  (withoutExt = "index" → route = "/") ∧
  (∀ p, withoutExt = p +:+ "/index" → route = "/" +:+ p) ∧
  (withoutExt ≠ "index" → (∀ p, withoutExt ≠ p +:+ "/index") →
   route = "/" +:+ withoutExt) ∧
  (relative = "index.zen" → route = "/") ∧
  (relative = "about.zen" → route = "/about") ∧
  (relative = "blog/index.zen" → route = "/blog") ∧
  (relative = "blog/post.zen" → route = "/blog/post") ∧
  Build.filePathToRoute "playground/pages/index.zen" Build.pagesDir = "/" ∧
  Build.filePathToRoute "playground/pages/about.zen" Build.pagesDir = "/about" ∧
  Build.filePathToRoute "playground/pages/blog/index.zen" Build.pagesDir
    = "/blog" ∧
  Build.filePathToRoute "playground/pages/blog/post.zen" Build.pagesDir
    = "/blog/post".
Proof.
  intros relative withoutExt route.
  assert (Hstrip : ∀ w, relative = w +:+ ".zen" → withoutExt = w).
  { intros w Hw. unfold withoutExt. rewrite Hw. apply strip_zen_ext. }
  assert (Hroot : withoutExt = "index" → route = "/").
  { intros Hw. unfold route, Build.filePathToRoute.
    fold relative. fold withoutExt. by rewrite decide_True. }
  assert (Hnested : ∀ p, withoutExt = p +:+ "/index" → route = "/" +:+ p).
  { intros p Hw. unfold route, Build.filePathToRoute.
    fold relative. fold withoutExt.
    rewrite decide_False by (rewrite Hw; apply index_is_no_nested_index).
    rewrite Hw, endsWith_app. f_equal.
    apply (slice_until_last_app p "/index"). }
  assert (Hplain : withoutExt ≠ "index" → (∀ p, withoutExt ≠ p +:+ "/index") →
                   route = "/" +:+ withoutExt).
  { intros Hne Hno. unfold route, Build.filePathToRoute.
    fold relative. fold withoutExt. rewrite decide_False by done.
    destruct (Js.endsWith withoutExt "/index") eqn:Hends; [|done].
    apply endsWith_iff in Hends as [p Hp]. by destruct (Hno p). }
  split_and!; try done.
  - intros H. apply Hroot, (Hstrip "index"), H.
  - intros H. rewrite Hplain; rewrite (Hstrip "about" H); try done.
    intros p Hp. apply (f_equal String.length) in Hp.
    rewrite str_length_app in Hp. simpl in Hp. lia.
  - intros H. apply (Hnested "blog"), (Hstrip "blog/index"), H.
  - intros H. rewrite Hplain; rewrite (Hstrip "blog/post" H); try done.
    intros p Hp.
    assert (Js.endsWith "blog/post" "/index" = true) as Hends
      by (rewrite Hp; apply endsWith_app).
    done.
Qed.

(** The derivation at a page the build script discovers. *)
Lemma filePathToRoute_derivation_witness :
  Build.strip_zen (Path.relative Build.pagesDir "playground/pages/docs/index.zen")
    = "docs/index" ∧
  Build.filePathToRoute "playground/pages/docs/index.zen" Build.pagesDir
    = "/docs".
Proof.
  pose proof (filePathToRoute_derivation
                "playground/pages/docs/index.zen" Build.pagesDir)
    as (Hstrip & _ & Hnested & _).
  split.
  - apply (Hstrip "docs/index"). reflexivity.
  - apply (Hnested "docs"). reflexivity.
Defined.

Lemma is_static_asset_iff pathname :
  Serve.is_static_asset pathname = true ↔
  ∃ stem ext, ext ∈ Serve.static_extensions ∧ pathname = stem +:+ "." +:+ ext.
Proof.
  unfold Serve.is_static_asset. rewrite existsb_exists. split.
  - intros (ext & Hin & Hends). apply endsWith_iff in Hends as [stem ->].
    exists stem, ext. by rewrite list_elem_of_In.
  - intros (stem & ext & Hin & ->). exists ext.
    rewrite <-list_elem_of_In. split; [done|apply endsWith_app].
Qed.

(** The decision order of the resolver, at one pathname. *)
Lemma resolve_decision_order (fs : Fs.FS) (pathname : string) :
  let has := λ file, Fs.exists_at fs (Path.normalize file) in
  let htmlPath := "./playground/dist" +:+ pathname +:+ ".html" in
  let indexPath := "./playground/dist" +:+ pathname +:+ "/index.html" in
  ∃ file, Serve.resolve pathname fs = (fs, Fs.Ok file) ∧
     (Serve.is_static_asset pathname = true →
      file = "./playground/dist" +:+ pathname) ∧
     (Serve.is_static_asset pathname = false →
      (pathname = "/" → file = "./playground/dist/index.html") ∧
      (pathname ≠ "/" → has htmlPath = true → file = htmlPath) ∧
      (pathname ≠ "/" → has htmlPath = false → has indexPath = true →
       file = indexPath) ∧
      (pathname ≠ "/" → has htmlPath = false → has indexPath = false →
       file = "./playground/dist/index.html")).
Proof.
  intros has htmlPath indexPath.
  unfold Serve.resolve. fold htmlPath indexPath.
  destruct (Serve.is_static_asset pathname) eqn:Hasset.
  { eexists. split; [reflexivity|]. split; [done|]. intros; discriminate. }
  destruct (decide (pathname = "/")) as [Hroot|Hroot].
  { eexists. split; [reflexivity|]. split; [intros; discriminate|].
    intros _. split_and!; try done. }
  unfold mbind, io_bind, Fs.bind, Fs.existsSync. fold (has htmlPath).
  destruct (has htmlPath) eqn:Hhtml.
  { eexists. split; [reflexivity|]. split; [intros; discriminate|].
    intros _. split_and!; intros; done. }
  fold (has indexPath).
  destruct (has indexPath) eqn:Hindex.
  - eexists. split; [reflexivity|]. split; [intros; discriminate|].
    intros _. split_and!; intros; done.
  - eexists. split; [reflexivity|]. split; [intros; discriminate|].
    intros _. split_and!; intros; done.
Qed.




(* ===================================================================== *)
(** * The event-attribute rewrite *)
(* ===================================================================== *)

Section tree_facts.
Import Dom.

(** Induction over a document tree, with the subtrees of a node at hand. *)
Lemma node_tree_ind (P : node → Prop) :
  (∀ nm a v, P (Node nm a v None)) →
  (∀ nm a v cs, Forall P cs → P (Node nm a v (Some cs))) →
  ∀ n, P n.
Proof.
  intros Hleaf Hinner. fix IH 1. intros [nm a v [cs|]]; [|apply Hleaf].
  apply Hinner. induction cs as [|c cs IHcs]; constructor; [apply IH|apply IHcs].
Qed.

Lemma preorder_unfold n : preorder n = n :: (children n ≫= preorder).
Proof.
  destruct n as [nm a v [cs|]]; reflexivity.
Qed.

End tree_facts.


Section split_facts.
Import Dom SplitSpec.



Lemma transform_attr_spec a ev :
  Split.transform_attr a ev
  = (marker_of a, add_all (option_list (event_word a)) ev).
Proof.
  unfold Split.transform_attr, marker_of, event_word.
  by destruct (_ && _).
Qed.

Lemma add_all_app ws1 ws2 ev :
  add_all (ws1 ++ ws2) ev = add_all ws2 (add_all ws1 ev).
Proof. apply foldl_app. Qed.

Lemma transform_attrs_spec l ev :
  Split.transform_attrs l ev = (map marker_of l, add_all (omap event_word l) ev).
Proof.
  revert ev. induction l as [|a l IH]; intros ev; [done|].
  simpl. rewrite transform_attr_spec, IH.
  destruct (event_word a); done.
Qed.

Lemma all_attrs_unfold n :
  all_attrs n = default [] (attrs n) ++ (children n ≫= all_attrs).
Proof.
  unfold all_attrs. rewrite preorder_unfold, bind_cons. f_equal.
  induction (children n) as [|c cs IH]; [done|].
  by rewrite !bind_cons, bind_app, IH.
Qed.

Lemma event_words_unfold n :
  event_words n
  = omap event_word (default [] (attrs n)) ++ (children n ≫= event_words).
Proof.
  unfold event_words. rewrite all_attrs_unfold, omap_app. f_equal.
  induction (children n) as [|c cs IH]; [done|].
  by rewrite !bind_cons, omap_app, IH.
Qed.

(** The walk is the attribute-wise rewrite of the tree, and it adds the words
    of the event attributes to the set in document order. *)
Lemma walk_spec n ev :
  Split.walk n ev = (map_attrs marker_of n, add_all (event_words n) ev).
Proof.
  revert ev. induction n as [nm a v|nm a v cs IH] using node_tree_ind; intros ev.
  - rewrite event_words_unfold. simpl. rewrite app_nil_r.
    destruct a as [l|]; simpl; [|done]. by rewrite transform_attrs_spec.
  - rewrite event_words_unfold, add_all_app. simpl.
    set (ev1 := add_all (omap event_word (default [] a)) ev).
    assert (match a with
            | Some l => let '(l', ev') := Split.transform_attrs l ev in (Some l', ev')
            | None => (None, ev)
            end = (option_map (map marker_of) a, ev1)) as ->.
    { unfold ev1. destruct a as [l|]; simpl; [|done].
      by rewrite transform_attrs_spec. }
    clearbody ev1. clear ev.
    match goal with
    | |- (let '(cs', ev') := ?each cs ev1 in _) = _ =>
        assert (each cs ev1
                = (map (map_attrs marker_of) cs,
                   add_all (cs ≫= event_words) ev1)) as ->
    end; [|done].
    revert ev1. induction IH as [|c cs Hc _ IHcs]; intros ev1; [done|].
    rewrite Hc, IHcs. simpl. by rewrite add_all_app.
Qed.

Lemma set_add_NoDup x s : NoDup s → NoDup (Split.set_add x s).
Proof.
  intros Hs. unfold Split.set_add. case_decide; [done|].
  apply NoDup_app. split_and!; [done| |apply NoDup_singleton].
  intros y Hy ->%list_elem_of_singleton. done.
Qed.

Lemma elem_of_set_add x y s : y ∈ Split.set_add x s ↔ y = x ∨ y ∈ s.
Proof.
  unfold Split.set_add. case_decide.
  - split; [auto|]. intros [->|]; done.
  - rewrite elem_of_app, list_elem_of_singleton. tauto.
Qed.

Lemma add_all_NoDup ws s : NoDup s → NoDup (add_all ws s).
Proof.
  revert s. induction ws as [|w ws IH]; intros s Hs; [done|].
  simpl. by apply IH, set_add_NoDup.
Qed.

Lemma elem_of_add_all ws s y : y ∈ add_all ws s ↔ y ∈ ws ∨ y ∈ s.
Proof.
  revert s. induction ws as [|w ws IH]; intros s; simpl.
  - rewrite elem_of_nil. tauto.
  - rewrite IH, elem_of_set_add, elem_of_cons. tauto.
Qed.

End split_facts.

Section rewrite_theorems.
Import Dom SplitSpec.
Variable parse5_parse : string → node.
Variable parse5_serialize : node → string.




End rewrite_theorems.

Section sorted_theorem.
Import Dom SplitSpec.
Variable parse5_parse : string → node.
Variable parse5_serialize : node → string.

(** C7.  Whatever the document, the [eventTypes] that [splitZen] returns are
    sorted and hold no string twice; they are the lower-cased words of the
    event attributes of the document, however these are ordered, cased or
    repeated there. *)
Theorem splitZen_eventTypes_sorted (file : Parse.ZenFile) :
  let eventKinds :=
    Split.eventTypes
      (Split.splitZen parse5_parse parse5_serialize
         file) in
  StronglySorted String.le eventKinds ∧
  NoDup eventKinds ∧
  (∀ w, w ∈ eventKinds ↔ w ∈ event_words (parse5_parse (Parse.html file))).
Proof.
  intros eventKinds.
  assert (eventKinds
          = Split.sort (add_all (event_words (parse5_parse (Parse.html file))) []))
    as ->.
  { unfold eventKinds, Split.splitZen, Split.transformEventAttributes.
    by rewrite walk_spec. }
  unfold Split.sort. split_and!.
  - apply (StronglySorted_merge_sort String.le).
  - rewrite merge_sort_Permutation. apply add_all_NoDup, NoDup_nil_2.
  - intros w. rewrite merge_sort_Permutation, elem_of_add_all, elem_of_nil.
    tauto.
Qed.

End sorted_theorem.


Example splitZen_eventTypes_mixed :
  Split.eventTypes
    (Split.splitZen (λ _, mixed_document) (λ _, "")
       {| Parse.html := "<button>"; Parse.scripts := []; Parse.styles := [] |})
  = ["change"; "click"; "mouseover"].
Proof. by vm_compute. Qed.


(* ===================================================================== *)
(** * The parser's catalog *)
(* ===================================================================== *)


Section parse_facts.
Import Dom Parse ParseSpec.

Lemma blocks_from_app k ns1 ns2 :
  blocks_from k (ns1 ++ ns2)
  = blocks_from k ns1 ++ blocks_from (k + length ns1) ns2.
Proof.
  revert k. induction ns1 as [|n ns1 IH]; intros k; simpl.
  - by rewrite Nat.add_0_r.
  - rewrite IH. do 3 f_equal. lia.
Qed.


Lemma extend_nil st : extend st [] = st.
Proof.
  destruct st. unfold extend. simpl. by rewrite !app_nil_r, !Nat.add_0_r.
Qed.

Lemma extend_app st ns1 ns2 :
  extend (extend st ns1) ns2 = extend st (ns1 ++ ns2).
Proof.
  unfold extend. simpl. rewrite !filter_app, !blocks_from_app, !length_app.
  f_equal; first [by rewrite app_assoc | lia].
Qed.

Lemma visit_extend n st : visit n st = extend st [n].
Proof.
  unfold visit, extend, cataloged.
  rewrite !filter_cons, !filter_nil.
  destruct st as [scr sty i j]. simpl.
  destruct (bool_decide_reflect (nodeName n = "script")) as [Hs|Hs];
    destruct (bool_decide_reflect (nodeName n = "style")) as [Ht|Ht];
    try congruence; destruct (has_childNodes n); simpl;
    repeat case_decide; try done; simpl;
    rewrite ?app_nil_r, ?Nat.add_0_r, ?Nat.add_1_r; done.
Qed.

Lemma walk_unfold n st :
  Parse.walk n st = foldl (λ st c, Parse.walk c st) (visit n st) (children n).
Proof.
  destruct n as [nm a v [cs|]]; [|done].
  change (children (Node nm a v (Some cs))) with cs. simpl.
  generalize (visit (Node nm a v (Some cs)) st). clear st.
  induction cs as [|c cs IH]; intros st; [done|]. simpl. apply IH.
Qed.

(** The walk meets the nodes of a tree in document order. *)
Lemma walk_extend n st : Parse.walk n st = extend st (preorder n).
Proof.
  revert st. induction n as [nm a v|nm a v cs IH] using node_tree_ind;
    intros st; rewrite walk_unfold, preorder_unfold, visit_extend.
  - done.
  - change (children (Node nm a v (Some cs))) with cs.
    change (extend st (Node nm a v (Some cs) :: cs ≫= preorder))
      with (extend st ([Node nm a v (Some cs)] ++ cs ≫= preorder)).
    rewrite <-extend_app.
    generalize (extend st [Node nm a v (Some cs)]). clear st.
    induction IH as [|c cs Hc _ IHcs]; intros st.
    + by rewrite extend_nil.
    + rewrite bind_cons, <-extend_app. cbn [foldl]. rewrite Hc. apply IHcs.
Qed.


End parse_facts.

Section parse_theorem.
Import Dom Parse ParseSpec.
Variable parse5_parse : string → node.


End parse_theorem.



(* ===================================================================== *)
(** * Paths of the files [emit] writes *)
(* ===================================================================== *)


Section path_facts.
Import EmitSpec.

Lemma list_ascii_app a b :
  String.list_ascii_of_string (a +:+ b)
  = String.list_ascii_of_string a ++ String.list_ascii_of_string b.
Proof. induction a as [|c a IH]; [done|]. rewrite str_app_cons. simpl. by rewrite IH. Qed.

Lemma no_slash_app a b : no_slash (a +:+ b) ↔ no_slash a ∧ no_slash b.
Proof. unfold no_slash. rewrite list_ascii_app, not_elem_of_app. tauto. Qed.

Lemma uint_no_slash d :
  no_slash (DecimalString.NilEmpty.string_of_uint d).
Proof.
  unfold no_slash.
  induction d as [|d IH|d IH|d IH|d IH|d IH|d IH|d IH|d IH|d IH|d IH]; simpl;
    [apply not_elem_of_nil|apply not_elem_of_cons; by split..].
Qed.

Lemma of_nat_no_slash i : no_slash (Js.of_nat i).
Proof.
  unfold Js.of_nat, DecimalString.NilZero.string_of_uint.
  destruct (Nat.to_uint i) eqn:Hd; try (rewrite <-Hd; apply uint_no_slash).
  unfold no_slash. simpl. rewrite not_elem_of_cons. split; [done|apply not_elem_of_nil].
Qed.

Lemma split_nonempty sep s : Js.split sep s ≠ [].
Proof.
  destruct s as [|c s]; [done|]. simpl.
  destruct (Ascii.eqb c sep); [done|]. by destruct (Js.split sep s).
Qed.

Lemma split_no_slash s : no_slash s → Js.split "/" s = [s].
Proof.
  unfold no_slash. induction s as [|c s IH]; [done|]. simpl.
  rewrite not_elem_of_cons. intros [Hc Hs].
  destruct (Ascii.eqb_spec c "/") as [->|_]; [done|]. by rewrite IH.
Qed.

Lemma split_app_slash a b :
  Js.split "/" (a +:+ "/" +:+ b) = Js.split "/" a ++ Js.split "/" b.
Proof.
  induction a as [|c a IH]; [done|]. rewrite str_app_cons. simpl.
  destruct (Ascii.eqb c "/"); rewrite IH; [done|].
  pose proof (split_nonempty "/" a). by destruct (Js.split "/" a).
Qed.

Lemma startsWith_slash_app a b :
  a ≠ "" → Js.startsWith (a +:+ b) "/" = Js.startsWith a "/".
Proof.
  destruct a as [|c a]; [done|]. intros _. rewrite str_app_cons.
  unfold Js.startsWith. cbn [String.prefix].
  destruct (ascii_dec "/" c); [|done].
  assert (∀ x, String.prefix "" x = true) as Hempty by (by intros []).
  by rewrite !Hempty.
Qed.

Lemma no_slash_not_absolute s : no_slash s → Js.startsWith s "/" = false.
Proof.
  unfold no_slash, Js.startsWith. destruct s as [|c s]; [done|].
  cbn [String.prefix String.list_ascii_of_string].
  rewrite not_elem_of_cons. intros [Hc _].
  destruct (ascii_dec "/" c); [done|done].
Qed.

Lemma push_file_name stack name :
  file_name name → Path.push_segment stack name = name :: stack.
Proof.
  intros (_ & H1 & H2 & H3). unfold Path.push_segment.
  rewrite decide_False by (intros [|]; done). by rewrite decide_False.
Qed.

(** Under a directory, a file name is one more segment. *)
Lemma join_file_name dir name :
  file_name name → Path.join dir name = Path.normalize dir ++ [name].
Proof.
  intros Hname. pose proof Hname as (Hslash & Hne & _).
  unfold Path.join. rewrite !filter_cons, filter_nil.
  rewrite (decide_True (P := name ≠ "")) by done.
  destruct (decide (dir ≠ "")) as [Hdir|Hdir].
  - change (Js.join "/" [dir; name]) with (dir +:+ "/" +:+ name).
    unfold Path.normalize.
    rewrite startsWith_slash_app by done.
    rewrite split_app_slash, (split_no_slash name) by done.
    rewrite foldl_app. cbn [foldl]. rewrite push_file_name by done.
    reflexivity.
  - apply dec_stable in Hdir as ->.
    change (Js.join "/" [name]) with name.
    unfold Path.normalize.
    rewrite no_slash_not_absolute, split_no_slash by done.
    cbn [foldl]. rewrite push_file_name by done. reflexivity.
Qed.

Lemma literal_no_slash s :
  forallb (λ c, negb (Ascii.eqb c "/")) (String.list_ascii_of_string s) = true →
  no_slash s.
Proof.
  unfold no_slash. rewrite forallb_forall. intros Hall Hin%list_elem_of_In.
  apply Hall in Hin. by rewrite Ascii.eqb_refl in Hin.
Qed.

Lemma script_name_is_file_name i : file_name (script_name i).
Proof.
  unfold file_name, script_name. split_and!; try done.
  rewrite !no_slash_app. split_and!; [|apply of_nat_no_slash|].
  - by apply literal_no_slash.
  - by apply literal_no_slash.
Qed.

Lemma style_name_is_file_name i : file_name (style_name i).
Proof.
  unfold file_name, style_name. split_and!; try done.
  rewrite !no_slash_app. split_and!; [|apply of_nat_no_slash|].
  - by apply literal_no_slash.
  - by apply literal_no_slash.
Qed.

End path_facts.

(* ===================================================================== *)
(** * What the file-system calls leave alone *)
(* ===================================================================== *)


Section fs_facts.
Import FsSpec.
Context {A B : Type}.
Implicit Types (S : list string → Prop).

Lemma bind_Ok (m : Fs.IO A) (k : A → Fs.IO B) fs fs' b :
  (m ≫= k) fs = (fs', Fs.Ok b) →
  ∃ fs1 a, m fs = (fs1, Fs.Ok a) ∧ k a fs1 = (fs', Fs.Ok b).
Proof.
  unfold mbind, io_bind, Fs.bind. destruct (m fs) as [fs1 [a|]]; [eauto|done].
Qed.

Lemma touches_ret (a : A) S : touches (mret a) S.
Proof. by intros fs fs' r q [= <- _] _. Qed.

Lemma touches_bind (m : Fs.IO A) (k : A → Fs.IO B) S :
  touches m S → (∀ a, touches (k a) S) → touches (m ≫= k) S.
Proof.
  intros Hm Hk fs fs' r q Hrun Hq.
  unfold mbind, io_bind, Fs.bind in Hrun.
  destruct (m fs) as [fs1 [a|]] eqn:Hm1.
  - rewrite (Hk a _ _ _ q Hrun Hq). by apply (Hm _ _ _ q Hm1).
  - injection Hrun as <- _. by apply (Hm _ _ _ q Hm1).
Qed.

Lemma touches_weaken (m : Fs.IO A) S S' :
  touches m S → (∀ q, S q → S' q) → touches m S'.
Proof. intros Hm Hsub fs fs' r q Hrun Hq. apply (Hm _ _ _ q Hrun). auto. Qed.

End fs_facts.

Section fs_call_facts.
Import FsSpec.

Lemma touches_existsSync p S : touches (Fs.existsSync p) S.
Proof. by intros fs fs' r q [= <- _] _. Qed.


Lemma touches_writeFileSync p data : touches (Fs.writeFileSync p data) (λ q, q = p).
Proof.
  intros fs fs' r q Hrun Hq. unfold Fs.writeFileSync in Hrun.
  destruct (Fs.is_dir fs p); [by injection Hrun as <- _|].
  destruct (Fs.is_dir fs (removelast p)); injection Hrun as <- _; [|done].
  by rewrite lookup_insert_ne.
Qed.

Lemma writeFileSync_Ok p data fs fs' :
  Fs.writeFileSync p data fs = (fs', Fs.Ok tt) → fs' = <[p := Fs.File data]> fs.
Proof.
  unfold Fs.writeFileSync. destruct (Fs.is_dir fs p); [done|].
  destruct (Fs.is_dir fs (removelast p)); [|done]. by intros [= <-].
Qed.

Lemma touches_copyFileSync src dest : touches (Fs.copyFileSync src dest) (λ q, q = dest).
Proof.
  intros fs fs' r q Hrun Hq. unfold Fs.copyFileSync in Hrun.
  destruct (fs !! src) as [[content|]|]; try by injection Hrun as <- _.
  by apply (touches_writeFileSync dest content fs fs' r q).
Qed.

(** [mkdir_each] only makes directories on the way to its target, and only
    where there was nothing. *)
Lemma touches_mkdir_each made todo :
  touches (Fs.mkdir_each made todo) (λ q, q `prefix_of` made ++ todo).
Proof.
  revert made. induction todo as [|seg todo IH]; intros made fs fs' r q Hrun Hq.
  - by injection Hrun as <- _.
  - simpl in Hrun.
    assert (¬ q `prefix_of` (made ++ [seg]) ++ todo) as Hq'.
    { rewrite <-app_assoc. exact Hq. }
    assert (q ≠ made ++ [seg]) as Hne.
    { intros ->. apply Hq. exists todo. by rewrite <-app_assoc. }
    destruct (fs !! (made ++ [seg])) as [[content|]|].
    + by injection Hrun as <- _.
    + by apply (IH _ _ _ _ _ Hrun).
    + destruct (Fs.is_root (made ++ [seg])).
      * by apply (IH _ _ _ _ _ Hrun).
      * rewrite (IH _ _ _ _ _ Hrun Hq'). by rewrite lookup_insert_ne.
Qed.


Lemma cleared_lookup_below p fs q : p `prefix_of` q → cleared p fs !! q = None.
Proof.
  intros Hq. apply map_lookup_filter_None. right. intros e _ Hnot. by apply Hnot.
Qed.

End fs_call_facts.

(* ===================================================================== *)
(** * What [emit] writes, and where *)
(* ===================================================================== *)

Section emit_facts.
Import FsSpec EmitSpec.

Lemma index_html_is_file_name : file_name "index.html".
Proof. split_and!; try done. by apply literal_no_slash. Qed.

Lemma favicon_is_file_name : file_name "favicon.ico".
Proof. split_and!; try done. by apply literal_no_slash. Qed.

Lemma join_inj dir n1 n2 :
  file_name n1 → file_name n2 → Path.join dir n1 = Path.join dir n2 → n1 = n2.
Proof.
  intros H1 H2. rewrite !join_file_name by done.
  intros Heq%app_inv_head. by injection Heq.
Qed.

Lemma index_html_is_no_script i : "index.html" ≠ script_name i.
Proof. unfold script_name. intros Heq. by injection Heq. Qed.

Lemma index_html_is_no_style i : "index.html" ≠ style_name i.
Proof. unfold style_name. intros Heq. by injection Heq. Qed.

Lemma emitted_name_is_file_name scripts styles name :
  emitted_name scripts styles name → file_name name.
Proof.
  intros [->|[->|[(i & _ & ->)|(i & _ & ->)]]].
  - apply index_html_is_file_name.
  - apply favicon_is_file_name.
  - apply script_name_is_file_name.
  - apply style_name_is_file_name.
Qed.

Lemma touches_write_each name i contents :
  touches (Emit.write_each name i contents)
    (λ q, ∃ k, i ≤ k < i + length contents ∧ q = name k).
Proof.
  revert i. induction contents as [|content rest IH]; intros i.
  - apply touches_ret.
  - cbn [Emit.write_each]. apply touches_bind.
    + eapply touches_weaken; [apply touches_writeFileSync|].
      intros q ->. exists i. simpl. split; [lia|done].
    + intros _. eapply touches_weaken; [apply IH|].
      intros q (k & Hk & ->). exists k. simpl. split; [lia|done].
Qed.

Lemma touches_copy_favicon outDir entryPath :
  touches (Emit.copy_favicon outDir entryPath)
    (λ q, q = Path.join outDir "favicon.ico").
Proof.
  unfold Emit.copy_favicon. destruct entryPath as [entryPath|];
    [|apply touches_ret].
  destruct (Js.truthy entryPath); [|apply touches_ret].
  apply touches_bind; [apply touches_existsSync|].
  intros [|]; [apply touches_copyFileSync|apply touches_ret].
Qed.

(** [emit] changes nothing but the directories on the way to the output root
    and, right under that root, the files with the names it emits. *)
Lemma touches_emit outDir html scripts styles entryPath :
  touches (Emit.emit outDir html scripts styles entryPath)
    (λ q, q `prefix_of` Path.normalize outDir ∨
          ∃ name, emitted_name (length scripts) (length styles) name ∧
                  q = Path.join outDir name).
Proof.
  unfold Emit.emit.
  apply touches_bind; [|intros _; apply touches_bind;
    [|intros _; apply touches_bind; [|intros _; apply touches_bind;
      [|intros _]]]].
  - eapply touches_weaken; [apply touches_mkdir_each|]. intros q Hq. by left.
  - eapply touches_weaken; [apply touches_copy_favicon|].
    intros q ->. right. exists "favicon.ico". split; [|done].
    right. by left.
  - eapply touches_weaken; [apply touches_writeFileSync|].
    intros q ->. right. exists "index.html". split; [|done]. by left.
  - eapply touches_weaken; [apply touches_write_each|].
    intros q (k & Hk & ->). right. exists (script_name k). split; [|done].
    right. right. left. exists k. split; [lia|done].
  - eapply touches_weaken; [apply touches_write_each|].
    intros q (k & Hk & ->). right. exists (style_name k). split; [|done].
    right. right. right. exists k. split; [lia|done].
Qed.

(** Whatever page [emit] is given, its HTML ends up in [index.html] right
    under the output root. *)
Lemma emit_writes_index_html outDir html scripts styles entryPath fs fs' :
  Emit.emit outDir html scripts styles entryPath fs = (fs', Fs.Ok tt) →
  fs' !! Path.join outDir "index.html"
  = Some (Fs.File (Emit.outputHTML html scripts styles)).
Proof.
  unfold Emit.emit. intros Hrun.
  apply bind_Ok in Hrun as (fs1 & [] & _ & Hrun).
  apply bind_Ok in Hrun as (fs2 & [] & _ & Hrun).
  apply bind_Ok in Hrun as (fs3 & [] & Hindex & Hrun).
  apply bind_Ok in Hrun as (fs4 & [] & Hscripts & Hstyles).
  apply writeFileSync_Ok in Hindex as ->.
  rewrite (touches_write_each _ _ _ _ _ _ _ Hstyles).
  - rewrite (touches_write_each _ _ _ _ _ _ _ Hscripts).
    + apply lookup_insert_eq.
    + intros (k & _ & Heq).
      apply (join_inj outDir "index.html" (script_name k)) in Heq;
        [by apply index_html_is_no_script in Heq
        |apply index_html_is_file_name|apply script_name_is_file_name].
  - intros (k & _ & Heq).
    apply (join_inj outDir "index.html" (style_name k)) in Heq;
      [by apply index_html_is_no_style in Heq
      |apply index_html_is_file_name|apply style_name_is_file_name].
Qed.

End emit_facts.

(** C2.  [emit] takes no route: for a page of any route it writes the HTML to
    [index.html] right under the output root, and it leaves the file the
    route names ([about.html] for [/about]) as it was. *)
Theorem emit_ignores_route outDir html scripts styles entryPath fs fs' route :
  Emit.emit outDir html scripts styles entryPath fs = (fs', Fs.Ok tt) →
  EmitSpec.file_name (Build.outputFile route) →
  ¬ EmitSpec.emitted_name (length scripts) (length styles)
      (Build.outputFile route) →
  fs' !! Path.join outDir "index.html"
    = Some (Fs.File (Emit.outputHTML html scripts styles)) ∧
  fs' !! Path.join outDir (Build.outputFile route)
    = fs !! Path.join outDir (Build.outputFile route).
Proof.
  intros Hrun Hname Hother. split; [by eapply emit_writes_index_html|].
  apply (touches_emit _ _ _ _ _ _ _ _ _ Hrun).
  intros [Habove|(name & Hemitted & Heq)].
  - rewrite join_file_name in Habove by done.
    by apply prefix_snoc_not in Habove.
  - apply join_inj in Heq; [by subst|done|].
    by eapply emitted_name_is_file_name.
Qed.

Lemma emit_ignores_route_witness :
  let run := Emit.emit Build.outDir "<h1>About</h1>" ["go()"] []
               (Some "playground/pages/about.zen") ∅ in
  Build.filePathToRoute "playground/pages/about.zen" Build.pagesDir = "/about" ∧
  run.2 = Fs.Ok tt ∧
  run.1 !! ["playground"; "dist"; "index.html"]
    = Some (Fs.File (Emit.outputHTML "<h1>About</h1>" ["go()"] [])) ∧
  run.1 !! ["playground"; "dist"; "about.html"] = None.
Proof.
  intros run.
  assert (run.2 = Fs.Ok tt) as Hreturns by (vm_compute; reflexivity).
  assert (run = (run.1, Fs.Ok tt)) as Hrun
    by (rewrite <-Hreturns; apply surjective_pairing).
  destruct (emit_ignores_route Build.outDir "<h1>About</h1>" ["go()"] []
              (Some "playground/pages/about.zen") ∅ run.1 "/about" Hrun)
    as [Hindex Habout].
  - split_and!; try done. by apply literal_no_slash.
  - intros [Heq|[Heq|[(i & _ & Heq)|(i & Hi & _)]]];
      [done|done|by injection Heq|simpl in Hi; lia].
  - split_and!; [reflexivity|by rewrite Hrun|exact Hindex|exact Habout].
Defined.

(* ===================================================================== *)
(** * Compiling pages into one output root *)
(* ===================================================================== *)

Section compile_facts.
Import FsSpec EmitSpec.
Variable parse5_parse : string → Dom.node.
Variable parse5_serialize : Dom.node → string.
Variable JSON_stringify : list string → string.
Variable processComponents :
  Parse.ZenFile → string → Fs.FS → Fs.result Parse.ZenFile.
Variable binding_descriptors : Type.
Variable splitZen_bindings : Parse.ZenFile → binding_descriptors.
Variable generateBindingRuntime : binding_descriptors → string.
Variable generateAttributeBindingRuntime : binding_descriptors → string.

Local Abbreviation compile :=
  (Compiler.compile parse5_parse parse5_serialize
     JSON_stringify processComponents binding_descriptors splitZen_bindings
     generateBindingRuntime generateAttributeBindingRuntime).
Local Abbreviation page_html :=
  (Compiler.page_html parse5_parse parse5_serialize).
Local Abbreviation page_scripts :=
  (Compiler.page_scripts parse5_parse parse5_serialize
     JSON_stringify binding_descriptors splitZen_bindings
     generateBindingRuntime generateAttributeBindingRuntime).
Local Abbreviation page_styles :=
  (Compiler.page_styles parse5_parse parse5_serialize).

Lemma clear_outDir_run outDir fs :
  Compiler.clear_outDir outDir fs
  = (if Fs.exists_text fs outDir
     then cleared (Path.normalize outDir) fs else fs, Fs.Ok tt).
Proof.
  unfold Compiler.clear_outDir, mbind, io_bind, Fs.bind, Fs.existsSync_text.
  by destruct (Fs.exists_text fs outDir).
Qed.

Lemma parseZen_Ok path fs fs' zen :
  Parse.parseZen parse5_parse path fs = (fs', Fs.Ok zen) → fs' = fs.
Proof.
  unfold Parse.parseZen, mbind, io_bind, Fs.bind, Fs.readFileSync.
  destruct (fs !! Path.normalize path) as [[source|]|]; [|done..].
  by intros [= <- _].
Qed.

Lemma length_page_scripts processedZen :
  length (page_scripts processedZen) = length (Parse.scripts processedZen).
Proof.
  unfold Compiler.page_scripts, Compiler.scriptsWithRuntime, Split.splitZen.
  destruct (Split.transformEventAttributes _ _ _). simpl.
  by rewrite length_imap, length_map.
Qed.

Lemma length_page_styles processedZen :
  length (page_styles processedZen) = length (Parse.styles processedZen).
Proof.
  unfold Compiler.page_styles, Split.splitZen.
  destruct (Split.transformEventAttributes _ _ _). simpl.
  by rewrite length_map.
Qed.

(** A call of [compile] that returns has parsed and processed the entry on
    the disk that the clearing left, and is a call of [emit] on that disk. *)
Lemma compile_Ok_emit entry outDir fs fs' :
  compile entry outDir fs = (fs', Fs.Ok tt) →
  let fs1 := if Fs.exists_text fs outDir
             then cleared (Path.normalize outDir) fs else fs in
  ∃ zen processedZen,
    Parse.parseZen parse5_parse entry fs1 = (fs1, Fs.Ok zen) ∧
    processComponents zen entry fs1 = Fs.Ok processedZen ∧
    Emit.emit outDir (page_html processedZen) (page_scripts processedZen)
      (page_styles processedZen) (Some entry) fs1
    = (fs', Fs.Ok tt).
Proof.
  intros Hrun fs1. unfold Compiler.compile in Hrun.
  apply bind_Ok in Hrun as (fs1' & [] & Hclear & Hrun).
  rewrite clear_outDir_run in Hclear. injection Hclear as <-. fold fs1 in Hrun.
  apply bind_Ok in Hrun as (fs2 & zen & Hparse & Hrun).
  pose proof (parseZen_Ok _ _ _ _ Hparse) as ->.
  apply bind_Ok in Hrun as (fs3 & processedZen & Hprocess & Hrun).
  injection Hprocess as <- Hprocess. eauto.
Qed.


(** C1.  When the build script compiles a page whose route is [/] and then
    another page, the file the resolver returns for [/] is [index.html] under
    the output root, and it holds the HTML that the compile of the other page
    emitted. *)
Theorem build_serves_last_page pageA pageB fs fs' :
  Build.compile_pages compile [pageA; pageB] fs = (fs', Fs.Ok tt) →
  Build.filePathToRoute pageA Build.pagesDir = "/" →
  Build.filePathToRoute pageB Build.pagesDir ≠ "/" →
  ∃ html scripts styles fs1,
    Emit.emit Build.outDir html scripts styles (Some pageB) fs1
      = (fs', Fs.Ok tt) ∧
    Serve.resolve (Build.filePathToRoute pageA Build.pagesDir) fs'
      = (fs', Fs.Ok "./playground/dist/index.html") ∧
    fs' !! Path.normalize "./playground/dist/index.html"
      = Some (Fs.File (Emit.outputHTML html scripts styles)).
Proof.
  intros Hrun HrouteA _. cbn [Build.compile_pages] in Hrun.
  apply bind_Ok in Hrun as (fs1 & [] & _ & Hrun).
  apply bind_Ok in Hrun as (fs2 & [] & HB & Hend).
  injection Hend as <-.
  apply compile_Ok_emit in HB as (zen & processedZen & _ & _ & Hemit).
  eexists _, _, _, _. split; [exact Hemit|]. split; [by rewrite HrouteA|].
  apply (emit_writes_index_html _ _ _ _ _ _ _ Hemit).
Qed.

End compile_facts.



Lemma build_serves_last_page_witness :
  let run := Build.compile_pages Sample.compile
               [Sample.index_page; Sample.about_page] Sample.sources in
  run.2 = Fs.Ok tt ∧
  Serve.resolve "/" run.1 = (run.1, Fs.Ok "./playground/dist/index.html") ∧
  ∃ content,
    run.1 !! ["playground"; "dist"; "index.html"] = Some (Fs.File content) ∧
    Js.includes content "<p>About</p>" = true ∧
    Js.includes content "<p>Home</p>" = false.
Proof.
  intros run.
  assert (run.2 = Fs.Ok tt) as Hreturns by (vm_compute; reflexivity).
  assert (run = (run.1, Fs.Ok tt)) as Hrun
    by (rewrite <-Hreturns; apply surjective_pairing).
  destruct (build_serves_last_page _ _ _ _ _ _ _ _ _ _ _ _ Hrun)
    as (html & scripts & styles & fs1 & _ & Hresolve & Hfile).
  { reflexivity. }
  { discriminate. }
  split; [by rewrite Hrun|]. split; [exact Hresolve|].
  eexists. split; [vm_compute; reflexivity|].
  split; vm_compute; reflexivity.
Defined.

(* ===================================================================== *)
(** * The assembled scripts *)
(* ===================================================================== *)

Lemma generateEventBindingRuntime_truthy JSON_stringify eventTypes :
  Js.truthy (Event.generateEventBindingRuntime JSON_stringify eventTypes) = true.
Proof.
  unfold Event.generateEventBindingRuntime.
  set (head := Js.join Js.nl Event.runtime_head).
  assert (∃ rest, head = String "010" rest) as [rest ->]
    by (eexists; vm_compute; reflexivity).
  by rewrite str_app_cons.
Qed.




Section assembly_theorem.
Variable parse5_parse : string → Dom.node.
Variable parse5_serialize : Dom.node → string.
Variable JSON_stringify : list string → string.
Variable binding_descriptors : Type.
Variable splitZen_bindings : Parse.ZenFile → binding_descriptors.
Variable generateBindingRuntime : binding_descriptors → string.
Variable generateAttributeBindingRuntime : binding_descriptors → string.


End assembly_theorem.




(* ===================================================================== *)
(** * The generated listener *)
(* ===================================================================== *)


Section delegate_facts.
Import Event EventSpec.



(** C10.  An event whose target is the document has no element ancestor with
    a marker, and the listener throws on it: the document has no
    [hasAttribute]. *)
Theorem delegate_throws_on_document (window : string → option global)
  (type : string) :
  delegate window {| Event.type := type; target := TargetDocument |}
  = TypeError ∧
  delegate window {| Event.type := type; target := TargetDocument |}
  ≠ Returned.
Proof.
  assert (delegate window {| Event.type := type; target := TargetDocument |}
          = TypeError) as Hthrow.
  { unfold delegate. reflexivity. }
  split; [exact Hthrow|]. rewrite Hthrow. discriminate.
Qed.

End delegate_facts.


Example delegate_matched_ancestor :
  let marked := Event.Element [("data-zen-click", "foo")] None in
  let child := Event.Element [("id", "inner")] (Some marked) in
  Event.delegate
    (λ name, if decide (name = "foo") then Some Event.GlobalFunction else None)
    {| Event.type := "click"; Event.target := Event.TargetElement child |}
  = Event.Invoked "foo" marked.
Proof. reflexivity. Qed.


(* ===================================================================== *)
(** * The stripped markup, on examples *)
(* ===================================================================== *)

Example strip_repeated_and_attributed :
  Split.stripScriptAndStyleTags
    "<p>a</p><SCRIPT src=x>foo</script><style>p{}</style>b<script>1</script><script>2</script>c"
  = "<p>a</p>bc".
Proof. reflexivity. Qed.

Example strip_unterminated : Split.stripScriptAndStyleTags "<script>abc" = "<script>abc".
Proof. reflexivity. Qed.

(* ===================================================================== *)
(** * The output file the design document proposes *)
(* ===================================================================== *)

Lemma slash_route_is_no_root r : r ≠ "" → "/" +:+ r ≠ "/".
Proof.
  intros Hr Heq. apply Hr. rewrite str_app_cons, str_app_empty_l in Heq.
  by injection Heq.
Qed.

Lemma outputFile_other r :
  r ≠ "" → Build.outputFile ("/" +:+ r) = r +:+ ".html".
Proof.
  intros Hr. unfold Build.outputFile.
  rewrite decide_False by by apply slash_route_is_no_root.
  f_equal. apply (slice_from_app "/" r).
Qed.


(** The resolver finds the proposed output file of a page route: when that
    file exists and the route has no static-asset extension, the route
    resolves to it. *)
Theorem resolve_finds_outputFile (fs : Fs.FS) (r : string) :
  r ≠ "" →
  Serve.is_static_asset ("/" +:+ r) = false →
  Fs.exists_at fs
    (Path.normalize ("./playground/dist/" +:+ Build.outputFile ("/" +:+ r)))
    = true →
  Serve.resolve ("/" +:+ r) fs
  = (fs, Fs.Ok ("./playground/dist/" +:+ Build.outputFile ("/" +:+ r))).
Proof.
  intros Hr Hasset Hexists.
  rewrite outputFile_other in * by done.
  assert ("./playground/dist/" +:+ r +:+ ".html"
          = "./playground/dist" +:+ ("/" +:+ r) +:+ ".html") as Heq
    by reflexivity.
  rewrite Heq in *.
  destruct (resolve_decision_order fs ("/" +:+ r)) as (file & -> & _ & Hpage).
  destruct (Hpage Hasset) as (_ & Hhtml & _).
  rewrite (Hhtml (slash_route_is_no_root r Hr) Hexists).
  reflexivity.
Qed.

Lemma resolve_finds_outputFile_witness :
  Serve.resolve "/about" tree_with_both_about
  = (tree_with_both_about, Fs.Ok "./playground/dist/about.html").
Proof.
  apply (resolve_finds_outputFile tree_with_both_about "about").
  - discriminate.
  - reflexivity.
  - vm_compute. reflexivity.
Defined.

(* ===================================================================== *)
(** * The files of one page *)
(* ===================================================================== *)

(** Whether it returns or throws, [emit] leaves every path as it was, except
    the directories on the way to the output root and, right under that root,
    [index.html], [favicon.ico], [script-<i>.js] for each script and
    [style-<i>.css] for each style. *)
Theorem emit_writes_only_its_files (outDir html : string)
  (scripts styles : list string) (entryPath : option string)
  (fs fs' : Fs.FS) (r : Fs.result unit) (q : list string) :
  Emit.emit outDir html scripts styles entryPath fs = (fs', r) →
  ¬ q `prefix_of` Path.normalize outDir →
  (∀ name, EmitSpec.emitted_name (length scripts) (length styles) name →
           q ≠ Path.normalize outDir ++ [name]) →
  fs' !! q = fs !! q.
Proof.
  intros Hrun Habove Hother.
  apply (touches_emit _ _ _ _ _ _ _ _ q Hrun).
  intros [Hq|(name & Hname & ->)]; [done|].
  apply (Hother name Hname), join_file_name.
  by eapply emitted_name_is_file_name.
Qed.

Lemma emit_writes_only_its_files_witness :
  (Emit.emit Build.outDir "<h1>About</h1>" ["go()"] []
     (Some "playground/pages/about.zen") Sample.sources).1
    !! ["playground"; "pages"; "index.zen"]
  = Some (Fs.File Sample.home_source).
Proof.
  rewrite (emit_writes_only_its_files Build.outDir "<h1>About</h1>" ["go()"] []
             (Some "playground/pages/about.zen") Sample.sources _ _
             ["playground"; "pages"; "index.zen"] (surjective_pairing _)).
  - reflexivity.
  - intros [k Hk]. by destruct k as [|? [|? [|? k]]].
  - intros name _ [=].
Defined.

(* ===================================================================== *)
(** * Which handler the listener calls *)
(* ===================================================================== *)

Section delegate_dispatch.
Import Event EventSpec.



Lemma truthy_iff s : Js.truthy s = true ↔ s ≠ "".
Proof.
  unfold Js.truthy. rewrite negb_true_iff. split.
  - intros Hne ->. by rewrite String.eqb_refl in Hne.
  - intros Hne. by apply String.eqb_neq.
Qed.


End delegate_dispatch.

(* ===================================================================== *)
(** * More on routes and their files *)
(* ===================================================================== *)

Lemma str_app_inv_tail a b s : a +:+ s = b +:+ s → a = b.
Proof.
  intros Heq. apply (f_equal String.list_ascii_of_string) in Heq.
  rewrite !list_ascii_app in Heq. apply app_inv_tail in Heq.
  rewrite <-(String.string_of_list_ascii_of_string a).
  rewrite <-(String.string_of_list_ascii_of_string b). by rewrite Heq.
Qed.

(** Every route pattern begins with a slash. *)
Theorem filePathToRoute_begins_with_slash (filePath pagesDir : string) :
  ∃ rest, Build.filePathToRoute filePath pagesDir = "/" +:+ rest.
Proof.
  unfold Build.filePathToRoute.
  destruct (decide _); [by exists ""|].
  destruct (Js.endsWith _ _); eauto.
Qed.

(** No collision is detected: the page [p.zen] and the page [p/index.zen] get
    the same route pattern. *)
Theorem filePathToRoute_collision (pagesDir flat nested p : string) :
  Path.relative pagesDir flat = p +:+ ".zen" →
  Path.relative pagesDir nested = p +:+ "/index.zen" →
  p ≠ "index" → (∀ q, p ≠ q +:+ "/index") →
  Build.filePathToRoute flat pagesDir = "/" +:+ p ∧
  Build.filePathToRoute nested pagesDir = "/" +:+ p.
Proof.
  intros Hflat Hnested Hindex Hno. unfold Build.filePathToRoute.
  rewrite Hflat, Hnested, strip_zen_ext.
  assert (p +:+ "/index.zen" = (p +:+ "/index") +:+ ".zen") as ->
    by by rewrite str_app_assoc.
  rewrite strip_zen_ext. split.
  - rewrite decide_False by done.
    destruct (Js.endsWith p "/index") eqn:Hends; [|done].
    apply endsWith_iff in Hends as [q Hq]. by destruct (Hno q).
  - rewrite decide_False by apply index_is_no_nested_index.
    rewrite endsWith_app. f_equal. apply (slice_until_last_app p "/index").
Qed.

Lemma filePathToRoute_collision_witness :
  Build.filePathToRoute "playground/pages/about.zen" Build.pagesDir = "/about" ∧
  Build.filePathToRoute "playground/pages/about/index.zen" Build.pagesDir
  = "/about".
Proof.
  apply (filePathToRoute_collision Build.pagesDir "playground/pages/about.zen"
           "playground/pages/about/index.zen" "about"); try done.
  intros q Hq. apply (f_equal String.length) in Hq.
  rewrite str_length_app in Hq. simpl in Hq. lia.
Defined.

(** The proposed output files of two routes coincide only when the routes do,
    or when one is [/] and the other [/index]. *)
Theorem outputFile_collides_only_at_index (r1 r2 : string) :
  Js.startsWith r1 "/" = true → Js.startsWith r2 "/" = true →
  Build.outputFile r1 = Build.outputFile r2 →
  r1 = r2 ∨ (r1 = "/" ∧ r2 = "/index") ∨ (r1 = "/index" ∧ r2 = "/").
Proof.
  intros [t1 ->]%startsWith_iff [t2 ->]%startsWith_iff.
  assert (∀ t, Js.slice_from 1 ("/" +:+ t) = t) as Hslice
    by (intros t; apply (slice_from_app "/" t)).
  unfold Build.outputFile. rewrite !Hslice.
  destruct (decide ("/" +:+ t1 = "/")) as [H1|H1],
           (decide ("/" +:+ t2 = "/")) as [H2|H2].
  - left. by rewrite H1, H2.
  - intros Heq. right. left. split; [done|].
    apply (str_app_inv_tail "index" t2 ".html") in Heq. by rewrite <-Heq.
  - intros Heq. right. right. split; [|done].
    apply (str_app_inv_tail t1 "index" ".html") in Heq. by rewrite Heq.
  - intros Heq%str_app_inv_tail. left. by rewrite Heq.
Qed.

Lemma outputFile_collides_only_at_index_witness :
  Build.outputFile "/" = Build.outputFile "/index" ∧
  ("/" = "/index" ∨ ("/" = "/" ∧ "/index" = "/index")
   ∨ ("/" = "/index" ∧ "/index" = "/")).
Proof.
  split; [reflexivity|].
  apply (outputFile_collides_only_at_index "/" "/index"); reflexivity.
Defined.



(** A page whose route ends in a static-asset extension is never served: on
    its route the resolver returns the asset path, which is not the output
    file proposed for the page, whatever the output tree holds. *)
Theorem resolve_asset_extension_hides_page (fs : Fs.FS) (r : string) :
  Serve.is_static_asset ("/" +:+ r) = true →
  Serve.resolve ("/" +:+ r) fs = (fs, Fs.Ok ("./playground/dist/" +:+ r)) ∧
  "./playground/dist/" +:+ r
  ≠ "./playground/dist/" +:+ Build.outputFile ("/" +:+ r).
Proof.
  intros Hasset.
  destruct (resolve_decision_order fs ("/" +:+ r)) as (file & -> & Hfile & _).
  rewrite (Hfile Hasset). split; [reflexivity|].
  assert (r ≠ "") as Hr by (intros ->; discriminate).
  rewrite outputFile_other by done.
  intros Heq. apply (f_equal String.length) in Heq.
  rewrite !str_length_app in Heq. simpl in Heq. lia.
Qed.

Lemma resolve_asset_extension_hides_page_witness :
  Build.filePathToRoute "playground/pages/docs/v1.js.zen" Build.pagesDir
  = "/docs/v1.js" ∧
  Serve.resolve "/docs/v1.js" tree_with_both_about
  = (tree_with_both_about, Fs.Ok "./playground/dist/docs/v1.js") ∧
  Build.outputFile "/docs/v1.js" = "docs/v1.js.html".
Proof.
  split; [reflexivity|]. split; [|reflexivity].
  apply (resolve_asset_extension_hides_page tree_with_both_about "docs/v1.js").
  reflexivity.
Defined.

(* ===================================================================== *)
(** * The side files of a page *)
(* ===================================================================== *)

Section side_file_facts.
Import FsSpec EmitSpec.

Lemma str_app_inv_head a s t : a +:+ s = a +:+ t → s = t.
Proof.
  induction a as [|c a IH]; [done|]. rewrite !str_app_cons.
  intros Heq. apply IH. by injection Heq.
Qed.

Lemma to_uint_is_no_Nil n : Nat.to_uint n ≠ Decimal.Nil.
Proof.
  intros Heq. pose proof (DecimalNat.Unsigned.of_to n) as Hof.
  rewrite Heq in Hof. simpl in Hof. subst n. discriminate.
Qed.

Lemma of_nat_inj i j : Js.of_nat i = Js.of_nat j → i = j.
Proof.
  unfold Js.of_nat. intros Heq.
  apply (f_equal DecimalString.NilZero.uint_of_string) in Heq.
  rewrite !DecimalString.NilZero.usu in Heq by apply to_uint_is_no_Nil.
  injection Heq as Heq. by apply DecimalNat.Unsigned.to_uint_inj.
Qed.

Lemma script_name_inj i j : script_name i = script_name j → i = j.
Proof.
  unfold script_name. intros Heq%str_app_inv_head%str_app_inv_tail.
  by apply of_nat_inj.
Qed.

Lemma style_name_inj i j : style_name i = style_name j → i = j.
Proof.
  unfold style_name. intros Heq%str_app_inv_head%str_app_inv_tail.
  by apply of_nat_inj.
Qed.

Lemma script_name_is_no_style i j : script_name i ≠ style_name j.
Proof. unfold script_name, style_name. intros Heq. by injection Heq. Qed.

Lemma favicon_is_no_index : "favicon.ico" ≠ "index.html".
Proof. done. Qed.

Lemma favicon_is_no_script i : "favicon.ico" ≠ script_name i.
Proof. unfold script_name. intros Heq. by injection Heq. Qed.

Lemma favicon_is_no_style i : "favicon.ico" ≠ style_name i.
Proof. unfold style_name. intros Heq. by injection Heq. Qed.

(** A [forEach] of writes to different files leaves each content in its
    file. *)
Lemma write_each_Ok name i contents fs fs' :
  (∀ j k, name j = name k → j = k) →
  Emit.write_each name i contents fs = (fs', Fs.Ok tt) →
  ∀ k s, contents !! k = Some s → fs' !! name (i + k) = Some (Fs.File s).
Proof.
  intros Hinj. revert i fs.
  induction contents as [|content rest IH]; intros i fs Hrun k s Hk; [done|].
  cbn [Emit.write_each] in Hrun.
  apply bind_Ok in Hrun as (fs1 & [] & Hwrite & Hrest).
  apply writeFileSync_Ok in Hwrite as ->.
  destruct k as [|k].
  - injection Hk as ->. rewrite Nat.add_0_r.
    rewrite (touches_write_each _ _ _ _ _ _ _ Hrest).
    + apply lookup_insert_eq.
    + intros (j & Hj & Heq). apply Hinj in Heq. lia.
  - rewrite Nat.add_succ_r. by apply (IH (S i) _ Hrest k s).
Qed.

(** [mkdir_each] and the writes keep every entry there is. *)
Lemma mkdir_each_keeps made todo fs fs' r q e :
  Fs.mkdir_each made todo fs = (fs', r) → fs !! q = Some e → fs' !! q = Some e.
Proof.
  revert made fs. induction todo as [|seg todo IH]; intros made fs Hrun Hq.
  - by injection Hrun as <- _.
  - simpl in Hrun. destruct (fs !! (made ++ [seg])) as [[content|]|] eqn:Hhere.
    + by injection Hrun as <- _.
    + by apply (IH _ _ Hrun).
    + destruct (Fs.is_root (made ++ [seg])); [by apply (IH _ _ Hrun)|].
      apply (IH _ _ Hrun). rewrite lookup_insert_ne; [done|].
      intros <-. by rewrite Hhere in Hq.
Qed.

End side_file_facts.

Section emit_side_files.
Import FsSpec EmitSpec.

(** When [emit] returns, the script of slot [i] is in [script-<i>.js] and the
    style of slot [i] is in [style-<i>.css], right under the output root. *)
Theorem emit_writes_side_files (outDir html : string)
  (scripts styles : list string) (entryPath : option string) (fs fs' : Fs.FS) :
  Emit.emit outDir html scripts styles entryPath fs = (fs', Fs.Ok tt) →
  (∀ i s, scripts !! i = Some s →
          fs' !! (Path.normalize outDir ++ [script_name i]) = Some (Fs.File s)) ∧
  (∀ i s, styles !! i = Some s →
          fs' !! (Path.normalize outDir ++ [style_name i]) = Some (Fs.File s)).
Proof.
  unfold Emit.emit. intros Hrun.
  apply bind_Ok in Hrun as (fs1 & [] & _ & Hrun).
  apply bind_Ok in Hrun as (fs2 & [] & _ & Hrun).
  apply bind_Ok in Hrun as (fs3 & [] & _ & Hrun).
  apply bind_Ok in Hrun as (fs4 & [] & Hscripts & Hstyles).
  split.
  - intros i s Hi.
    rewrite <-join_file_name by apply script_name_is_file_name.
    rewrite (touches_write_each _ _ _ _ _ _ _ Hstyles).
    + apply (write_each_Ok _ 0 _ _ _
               ltac:(intros j k Heq%join_inj; [by apply script_name_inj
                       |apply script_name_is_file_name..])
               Hscripts i s Hi).
    + intros (k & _ & Heq).
      apply (join_inj outDir (script_name i) (style_name k)) in Heq;
        [by apply script_name_is_no_style in Heq
        |apply script_name_is_file_name|apply style_name_is_file_name].
  - intros i s Hi.
    rewrite <-join_file_name by apply style_name_is_file_name.
    apply (write_each_Ok _ 0 _ _ _
             ltac:(intros j k Heq%join_inj; [by apply style_name_inj
                     |apply style_name_is_file_name..])
             Hstyles i s Hi).
Qed.

Lemma emit_writes_side_files_witness :
  let run := Emit.emit Build.outDir "<p>Home</p>" ["one()"; "two()"] ["p{}"]
               None ∅ in
  run.2 = Fs.Ok tt ∧
  run.1 !! ["playground"; "dist"; "script-1.js"] = Some (Fs.File "two()") ∧
  run.1 !! ["playground"; "dist"; "style-0.css"] = Some (Fs.File "p{}").
Proof.
  intros run.
  assert (run.2 = Fs.Ok tt) as Hreturns by (vm_compute; reflexivity).
  assert (run = (run.1, Fs.Ok tt)) as Hrun
    by (rewrite <-Hreturns; apply surjective_pairing).
  destruct (emit_writes_side_files _ _ _ _ _ _ _ Hrun) as [Hscripts Hstyles].
  split; [done|]. split.
  - apply (Hscripts 1 "two()"). reflexivity.
  - apply (Hstyles 0 "p{}"). reflexivity.
Defined.

(** A [favicon.ico] beside the entry is copied under the output root when
    [emit] returns. *)
Theorem emit_copies_favicon (outDir html : string)
  (scripts styles : list string) (entry content : string) (fs fs' : Fs.FS) :
  Emit.emit outDir html scripts styles (Some entry) fs = (fs', Fs.Ok tt) →
  entry ≠ "" →
  fs !! Path.join (Path.dirname entry) "favicon.ico" = Some (Fs.File content) →
  fs' !! (Path.normalize outDir ++ ["favicon.ico"]) = Some (Fs.File content).
Proof.
  unfold Emit.emit. intros Hrun Hentry Hsrc.
  apply bind_Ok in Hrun as (fs1 & [] & Hmkdir & Hrun).
  apply bind_Ok in Hrun as (fs2 & [] & Hcopy & Hrun).
  apply bind_Ok in Hrun as (fs3 & [] & Hindex & Hrun).
  apply bind_Ok in Hrun as (fs4 & [] & Hscripts & Hstyles).
  rewrite <-join_file_name by apply favicon_is_file_name.
  apply (mkdir_each_keeps _ _ _ _ _ _ _ Hmkdir) in Hsrc.
  unfold Emit.copy_favicon in Hcopy.
  assert (Js.truthy entry = true) as Htruthy.
  { unfold Js.truthy. apply negb_true_iff. by apply String.eqb_neq. }
  rewrite Htruthy in Hcopy.
  unfold mbind, io_bind, Fs.bind, Fs.existsSync, Fs.exists_at in Hcopy.
  rewrite Hsrc, orb_true_r in Hcopy. unfold Fs.copyFileSync in Hcopy.
  rewrite Hsrc in Hcopy. apply writeFileSync_Ok in Hcopy as ->.
  apply writeFileSync_Ok in Hindex as ->.
  rewrite (touches_write_each _ _ _ _ _ _ _ Hstyles).
  - rewrite (touches_write_each _ _ _ _ _ _ _ Hscripts).
    + rewrite lookup_insert_ne; [apply lookup_insert_eq|].
      intros Heq%join_inj;
        [done|apply index_html_is_file_name|apply favicon_is_file_name].
    + intros (k & _ & Heq).
      apply (join_inj outDir "favicon.ico" (script_name k)) in Heq;
        [by apply favicon_is_no_script in Heq
        |apply favicon_is_file_name|apply script_name_is_file_name].
  - intros (k & _ & Heq).
    apply (join_inj outDir "favicon.ico" (style_name k)) in Heq;
      [by apply favicon_is_no_style in Heq
      |apply favicon_is_file_name|apply style_name_is_file_name].
Qed.

(** Without a favicon beside the entry (or without an entry), [emit] leaves
    [favicon.ico] under the output root as it was, whether it returns or
    throws. *)
Theorem emit_skips_missing_favicon (outDir html : string)
  (scripts styles : list string) (entryPath : option string)
  (fs fs' : Fs.FS) (r : Fs.result unit) :
  Emit.emit outDir html scripts styles entryPath fs = (fs', r) →
  (∀ entry, entryPath = Some entry → entry ≠ "" →
     let faviconPath := Path.join (Path.dirname entry) "favicon.ico" in
     Fs.exists_at fs faviconPath = false ∧
     ¬ faviconPath `prefix_of` Path.normalize outDir) →
  fs' !! (Path.normalize outDir ++ ["favicon.ico"])
  = fs !! (Path.normalize outDir ++ ["favicon.ico"]).
Proof.
  unfold Emit.emit. intros Hrun Hmissing.
  rewrite <-join_file_name by apply favicon_is_file_name.
  set (dst := Path.join outDir "favicon.ico").
  assert (¬ dst `prefix_of` Path.normalize outDir) as Habove.
  { unfold dst. rewrite join_file_name by apply favicon_is_file_name.
    apply prefix_snoc_not. }
  unfold mbind, io_bind, Fs.bind in Hrun.
  destruct (Fs.mkdirSync_recursive (Path.normalize outDir) fs)
    as [fs1 [[]|]] eqn:Hmkdir.
  2:{ injection Hrun as <- _.
      by apply (touches_mkdir_each _ _ _ _ _ _ Hmkdir). }
  assert (fs1 !! dst = fs !! dst) as <-
    by by apply (touches_mkdir_each _ _ _ _ _ _ Hmkdir).
  assert (Emit.copy_favicon outDir entryPath fs1 = (fs1, Fs.Ok tt)) as Hcopy.
  { unfold Emit.copy_favicon. destruct entryPath as [entry|]; [|done].
    destruct (Js.truthy entry) eqn:Htruthy; [|done].
    destruct (Hmissing entry eq_refl) as [Hno Hnot].
    { intros ->. discriminate. }
    unfold mbind, io_bind, Fs.bind, Fs.existsSync.
    assert (Fs.exists_at fs1
              (Path.join (Path.dirname entry) "favicon.ico") = false) as ->;
      [|done].
    unfold Fs.exists_at in *. apply orb_false_iff in Hno as [-> Hno].
    rewrite (touches_mkdir_each _ _ _ _ _ _ Hmkdir); done. }
  rewrite Hcopy in Hrun.
  assert (∀ name i contents fsa fsb rr,
            Emit.write_each (λ i, Path.join outDir (name i)) i contents fsa
            = (fsb, rr) →
            (∀ k, file_name (name k) ∧ "favicon.ico" ≠ name k) →
            fsb !! dst = fsa !! dst) as Heach.
  { intros name i contents fsa fsb rr Hw Hname.
    apply (touches_write_each _ _ _ _ _ _ _ Hw).
    intros (k & _ & Heq). destruct (Hname k) as [Hfile Hne].
    apply join_inj in Heq; [done|apply favicon_is_file_name|done]. }
  assert (∀ data fsa fsb rr,
            Fs.writeFileSync (Path.join outDir "index.html") data fsa
            = (fsb, rr) → fsb !! dst = fsa !! dst) as Hindex.
  { intros data fsa fsb rr Hw.
    apply (touches_writeFileSync _ _ _ _ _ _ Hw).
    intros Heq%join_inj;
      [done|apply favicon_is_file_name|apply index_html_is_file_name]. }
  destruct (Fs.writeFileSync _ _ fs1) as [fs3 [[]|]] eqn:Hw.
  2:{ injection Hrun as <- _. by eapply Hindex. }
  rewrite <-(Hindex _ _ _ _ Hw).
  destruct (Emit.write_each _ 0 scripts fs3) as [fs4 [[]|]] eqn:Hs.
  2:{ injection Hrun as <- _.
      apply (Heach (λ i, "script-" +:+ Js.of_nat i +:+ ".js") _ _ _ _ _ Hs).
      intros k. split; [apply script_name_is_file_name
                       |apply favicon_is_no_script]. }
  rewrite <-(Heach (λ i, "script-" +:+ Js.of_nat i +:+ ".js") _ _ _ _ _ Hs)
    by (intros k; split; [apply script_name_is_file_name
                         |apply favicon_is_no_script]).
  apply (Heach (λ i, "style-" +:+ Js.of_nat i +:+ ".css") _ _ _ _ _ Hrun).
  intros k. split; [apply style_name_is_file_name|apply favicon_is_no_style].
Qed.

End emit_side_files.

Lemma emit_copies_favicon_witness :
  let disk : Fs.FS :=
    <[ ["playground"; "pages"; "favicon.ico"] := Fs.File "icon" ]> Sample.sources in
  let run := Emit.emit Build.outDir "<p>Home</p>" [] []
               (Some Sample.index_page) disk in
  run.2 = Fs.Ok tt ∧
  run.1 !! ["playground"; "dist"; "favicon.ico"] = Some (Fs.File "icon").
Proof.
  intros disk run.
  assert (run.2 = Fs.Ok tt) as Hreturns by (vm_compute; reflexivity).
  assert (run = (run.1, Fs.Ok tt)) as Hrun
    by (rewrite <-Hreturns; apply surjective_pairing).
  split; [done|].
  apply (emit_copies_favicon _ _ _ _ _ "icon" _ _ Hrun); [done|].
  vm_compute. reflexivity.
Defined.

Lemma emit_skips_missing_favicon_witness :
  (Emit.emit Build.outDir "<p>Home</p>" [] [] (Some Sample.index_page)
     Sample.sources).1 !! ["playground"; "dist"; "favicon.ico"] = None.
Proof.
  transitivity (Sample.sources !! ["playground"; "dist"; "favicon.ico"]);
    [|reflexivity].
  apply (emit_skips_missing_favicon Build.outDir "<p>Home</p>" [] []
           (Some Sample.index_page) Sample.sources _ _ (surjective_pairing _)).
  intros entry [= <-] _. split; [vm_compute; reflexivity|].
  intros [k Hk]. vm_compute in Hk. by destruct k as [|? [|? k]].
Defined.

(* ===================================================================== *)
(** * A page that cannot be compiled *)
(* ===================================================================== *)

Section failure_facts.
Import FsSpec.

Lemma parseZen_unreadable parse5_parse path fs :
  (∀ source, fs !! Path.normalize path ≠ Some (Fs.File source)) →
  Parse.parseZen parse5_parse path fs = (fs, Fs.Throw).
Proof.
  intros Hno. unfold Parse.parseZen, mbind, io_bind, Fs.bind, Fs.readFileSync.
  destruct (fs !! Path.normalize path) as [[source|]|] eqn:Hfile; [|done..].
  by destruct (Hno source).
Qed.

Lemma cleared_lookup_Some p fs q e :
  cleared p fs !! q = Some e → fs !! q = Some e.
Proof. unfold cleared. by intros [? _]%map_lookup_filter_Some. Qed.

Lemma compile_pages_app compile pre post fs :
  Build.compile_pages compile (pre ++ post) fs
  = match Build.compile_pages compile pre fs with
    | (fs1, Fs.Ok _) => Build.compile_pages compile post fs1
    | (fs1, Fs.Throw) => (fs1, Fs.Throw)
    end.
Proof.
  revert fs. induction pre as [|page pre IH]; intros fs; [done|].
  cbn [app Build.compile_pages]. unfold mbind, io_bind, Fs.bind.
  destruct (compile page Build.outDir fs) as [fs1 [[]|]]; [apply IH|done].
Qed.

End failure_facts.

Section compile_failure.
Import FsSpec EmitSpec.
Variable parse5_parse : string → Dom.node.
Variable parse5_serialize : Dom.node → string.
Variable JSON_stringify : list string → string.
Variable processComponents :
  Parse.ZenFile → string → Fs.FS → Fs.result Parse.ZenFile.
Variable binding_descriptors : Type.
Variable splitZen_bindings : Parse.ZenFile → binding_descriptors.
Variable generateBindingRuntime : binding_descriptors → string.
Variable generateAttributeBindingRuntime : binding_descriptors → string.

Local Abbreviation compile :=
  (Compiler.compile parse5_parse parse5_serialize
     JSON_stringify processComponents binding_descriptors splitZen_bindings
     generateBindingRuntime generateAttributeBindingRuntime).

Lemma compile_parse_Throw entry outDir fs :
  let fs1 := if Fs.exists_text fs outDir
             then cleared (Path.normalize outDir) fs else fs in
  (∀ source, fs1 !! Path.normalize entry ≠ Some (Fs.File source)) →
  compile entry outDir fs = (fs1, Fs.Throw).
Proof.
  intros fs1 Hno. unfold Compiler.compile.
  unfold mbind at 1. unfold io_bind, Fs.bind. rewrite clear_outDir_run.
  fold fs1. unfold mbind at 1. unfold io_bind, Fs.bind.
  by rewrite parseZen_unreadable.
Qed.



(** The build loop has no handler: a page that cannot be read makes the
    whole build throw, the pages after it are not compiled, and the output
    root, cleared for that page, holds nothing of the pages before it. *)
Theorem build_unreadable_page_wipes_root (pre post : list string)
  (page : string) (fs fs1 : Fs.FS) :
  Build.compile_pages compile pre fs = (fs1, Fs.Ok tt) →
  Fs.exists_text fs1 Build.outDir = true →
  (∀ source, fs1 !! Path.normalize page ≠ Some (Fs.File source)) →
  ∃ fs', Build.compile_pages compile (pre ++ page :: post) fs
         = (fs', Fs.Throw) ∧
         ∀ q, Path.normalize Build.outDir `prefix_of` q → fs' !! q = None.
Proof.
  intros Hpre Hexists Hno.
  exists (cleared (Path.normalize Build.outDir) fs1). split.
  - rewrite compile_pages_app, Hpre. cbn [Build.compile_pages].
    unfold mbind, io_bind, Fs.bind.
    pose proof (compile_parse_Throw page Build.outDir fs1) as Hrun.
    rewrite Hexists in Hrun. rewrite Hrun; [done|].
    intros source Hfile%cleared_lookup_Some. by destruct (Hno source).
  - intros q Hq. by apply cleared_lookup_below.
Qed.

End compile_failure.



Lemma build_unreadable_page_wipes_root_witness :
  let run := Build.compile_pages Sample.compile
               [Sample.index_page; "playground/pages/missing.zen";
                Sample.about_page] Sample.sources in
  run.2 = Fs.Throw ∧
  run.1 !! ["playground"; "dist"; "index.html"] = None.
Proof.
  intros run.
  destruct (build_unreadable_page_wipes_root Sample.parse Sample.serialize
              (λ _, "[]") (λ zen _ _, Fs.Ok zen) unit (λ _, tt) (λ _, "")
              (λ _, "") [Sample.index_page] [Sample.about_page]
              "playground/pages/missing.zen" Sample.sources
              (Build.compile_pages Sample.compile [Sample.index_page]
                 Sample.sources).1)
    as (fs' & Hrun & Hgone).
  - assert ((Build.compile_pages Sample.compile [Sample.index_page]
               Sample.sources).2 = Fs.Ok tt) as Hreturns
      by (vm_compute; reflexivity).
    rewrite <-Hreturns. apply surjective_pairing.
  - vm_compute. reflexivity.
  - intros source. vm_compute. discriminate.
  - unfold run, Sample.compile. cbn [app] in Hrun. rewrite Hrun. split; [done|]. apply Hgone. by exists ["index.html"].
Defined.

(* ===================================================================== *)
(** * A build of several pages *)
(* ===================================================================== *)

Section keeps_facts.
Import FsSpec KeepSpec.

Lemma keeps_ret {A} (a : A) : keeps (mret a).
Proof. by intros fs fs' r q [= <- _]. Qed.

Lemma keeps_bind {A B} (m : Fs.IO A) (k : A → Fs.IO B) :
  keeps m → (∀ a, keeps (k a)) → keeps (m ≫= k).
Proof.
  intros Hm Hk fs fs' r q Hrun Hq.
  unfold mbind, io_bind, Fs.bind in Hrun.
  destruct (m fs) as [fs1 [a|]] eqn:Hm1.
  - apply (Hk a _ _ _ q Hrun). by apply (Hm _ _ _ q Hm1).
  - injection Hrun as <- _. by apply (Hm _ _ _ q Hm1).
Qed.

Lemma exists_at_insert fs p e q :
  Fs.exists_at fs q = true → Fs.exists_at (<[p := e]> fs) q = true.
Proof.
  unfold Fs.exists_at. destruct (Fs.is_root q); [done|]. simpl.
  destruct (decide (p = q)) as [->|Hne].
  - by rewrite lookup_insert_eq.
  - by rewrite lookup_insert_ne.
Qed.

Lemma keeps_writeFileSync p data : keeps (Fs.writeFileSync p data).
Proof.
  intros fs fs' r q Hrun Hq. unfold Fs.writeFileSync in Hrun.
  destruct (Fs.is_dir fs p); [by injection Hrun as <- _|].
  destruct (Fs.is_dir fs (removelast p)); injection Hrun as <- _; [|done].
  by apply exists_at_insert.
Qed.

Lemma keeps_copyFileSync src dest : keeps (Fs.copyFileSync src dest).
Proof.
  intros fs fs' r q Hrun Hq. unfold Fs.copyFileSync in Hrun.
  destruct (fs !! src) as [[content|]|]; try by injection Hrun as <- _.
  by apply (keeps_writeFileSync dest content fs fs' r q).
Qed.

Lemma keeps_write_each name i contents : keeps (Emit.write_each name i contents).
Proof.
  revert i. induction contents as [|content rest IH]; intros i.
  - apply keeps_ret.
  - cbn [Emit.write_each]. apply keeps_bind; [apply keeps_writeFileSync|].
    intros _. apply IH.
Qed.

Lemma keeps_copy_favicon outDir entryPath :
  keeps (Emit.copy_favicon outDir entryPath).
Proof.
  unfold Emit.copy_favicon. destruct entryPath as [entryPath|];
    [|apply keeps_ret].
  destruct (Js.truthy entryPath); [|apply keeps_ret].
  apply keeps_bind; [by intros fs fs' r q [= <- _]|].
  intros [|]; [apply keeps_copyFileSync|apply keeps_ret].
Qed.

(** Where [mkdir_each] returns there is a directory. *)
Lemma mkdir_each_Ok_dir made todo fs fs' :
  Fs.mkdir_each made todo fs = (fs', Fs.Ok tt) →
  Fs.is_dir fs made = true →
  Fs.is_dir fs' (made ++ todo) = true.
Proof.
  revert made fs. induction todo as [|seg todo IH]; intros made fs Hrun Hmade.
  - injection Hrun as <-. by rewrite app_nil_r.
  - simpl in Hrun. rewrite (cons_middle seg), app_assoc.
    destruct (fs !! (made ++ [seg])) as [[content|]|] eqn:Hhere; [done|..].
    + apply (IH _ _ Hrun). unfold Fs.is_dir. by rewrite Hhere, orb_true_r.
    + destruct (Fs.is_root (made ++ [seg])) eqn:Hroot.
      * apply (IH _ _ Hrun). unfold Fs.is_dir. by rewrite Hroot.
      * apply (IH _ _ Hrun). unfold Fs.is_dir.
        by rewrite lookup_insert_eq, orb_true_r.
Qed.

Lemma is_dir_exists_at fs p : Fs.is_dir fs p = true → Fs.exists_at fs p = true.
Proof.
  unfold Fs.is_dir, Fs.exists_at. destruct (Fs.is_root p); [done|]. simpl.
  by destruct (fs !! p) as [[|]|].
Qed.

(** When [emit] returns, the output root exists. *)
Lemma emit_Ok_root_exists outDir html scripts styles entryPath fs fs' :
  Emit.emit outDir html scripts styles entryPath fs = (fs', Fs.Ok tt) →
  Fs.exists_at fs' (Path.normalize outDir) = true.
Proof.
  unfold Emit.emit. intros Hrun.
  apply bind_Ok in Hrun as (fs1 & [] & Hmkdir & Hrun).
  apply mkdir_each_Ok_dir in Hmkdir; [|done].
  apply is_dir_exists_at in Hmkdir.
  revert Hmkdir. apply (λ H : keeps _, H _ _ _ _ Hrun).
  apply keeps_bind; [apply keeps_copy_favicon|].
  intros _. apply keeps_bind; [apply keeps_writeFileSync|].
  intros _. apply keeps_bind; [apply keeps_write_each|].
  intros _. apply keeps_write_each.
Qed.

End keeps_facts.

Section build_facts.
Import FsSpec EmitSpec.
Variable parse5_parse : string → Dom.node.
Variable parse5_serialize : Dom.node → string.
Variable JSON_stringify : list string → string.
Variable processComponents :
  Parse.ZenFile → string → Fs.FS → Fs.result Parse.ZenFile.
Variable binding_descriptors : Type.
Variable splitZen_bindings : Parse.ZenFile → binding_descriptors.
Variable generateBindingRuntime : binding_descriptors → string.
Variable generateAttributeBindingRuntime : binding_descriptors → string.

Local Abbreviation compile :=
  (Compiler.compile parse5_parse parse5_serialize
     JSON_stringify processComponents binding_descriptors splitZen_bindings
     generateBindingRuntime generateAttributeBindingRuntime).
Local Abbreviation page_html :=
  (Compiler.page_html parse5_parse parse5_serialize).
Local Abbreviation page_scripts :=
  (Compiler.page_scripts parse5_parse parse5_serialize
     JSON_stringify binding_descriptors splitZen_bindings
     generateBindingRuntime generateAttributeBindingRuntime).
Local Abbreviation page_styles :=
  (Compiler.page_styles parse5_parse parse5_serialize).

Lemma compile_Ok_root_exists entry outDir fs fs' :
  compile entry outDir fs = (fs', Fs.Ok tt) → outDir ≠ "" →
  Fs.exists_text fs' outDir = true.
Proof.
  intros Hrun Hne.
  apply (compile_Ok_emit parse5_parse parse5_serialize JSON_stringify
           processComponents binding_descriptors splitZen_bindings
           generateBindingRuntime generateAttributeBindingRuntime)
    in Hrun as (zen & processedZen & _ & _ & Hemit).
  unfold Fs.exists_text. rewrite decide_False by done.
  by apply emit_Ok_root_exists in Hemit.
Qed.

Lemma compile_pages_Ok_root_exists pages fs fs' :
  Build.compile_pages compile pages fs = (fs', Fs.Ok tt) → pages ≠ [] →
  Fs.exists_text fs' Build.outDir = true.
Proof.
  destruct pages as [|page pages _] using rev_ind; [done|]. intros Hrun _.
  rewrite compile_pages_app in Hrun.
  destruct (Build.compile_pages compile pages fs) as [fs1 [[]|]]; [|done].
  cbn [Build.compile_pages] in Hrun.
  apply bind_Ok in Hrun as (fs2 & [] & Hcompile & [= <-]).
  by apply compile_Ok_root_exists in Hcompile.
Qed.

(** After a build of two pages or more that returns, the output root holds
    the files of the last page and nothing else: its [index.html] is the
    HTML of the last page, and no file of an earlier page is left. *)
Theorem build_keeps_only_last_page (pre : list string) (page : string)
  (fs fs' : Fs.FS) :
  Build.compile_pages compile (pre ++ [page]) fs = (fs', Fs.Ok tt) →
  pre ≠ [] →
  ∃ fs1 zen processedZen,
    Build.compile_pages compile pre fs = (fs1, Fs.Ok tt) ∧
    let fs2 := cleared (Path.normalize Build.outDir) fs1 in
    Parse.parseZen parse5_parse page fs2 = (fs2, Fs.Ok zen) ∧
    processComponents zen page fs2 = Fs.Ok processedZen ∧
    fs' !! (Path.normalize Build.outDir ++ ["index.html"])
    = Some (Fs.File (Emit.outputHTML (page_html processedZen)
                       (page_scripts processedZen) (page_styles processedZen))) ∧
    ∀ q, Path.normalize Build.outDir `prefix_of` q →
         q ≠ Path.normalize Build.outDir →
         (∀ name, emitted_name (length (Parse.scripts processedZen))
                    (length (Parse.styles processedZen)) name →
                  q ≠ Path.normalize Build.outDir ++ [name]) →
         fs' !! q = None.
Proof.
  intros Hrun Hpre. rewrite compile_pages_app in Hrun.
  destruct (Build.compile_pages compile pre fs) as [fs1 [[]|]] eqn:Hbefore;
    [|done].
  pose proof (compile_pages_Ok_root_exists _ _ _ Hbefore Hpre) as Hexists.
  cbn [Build.compile_pages] in Hrun.
  apply bind_Ok in Hrun as (fs3 & [] & Hcompile & [= <-]).
  apply (compile_Ok_emit parse5_parse parse5_serialize JSON_stringify
           processComponents binding_descriptors splitZen_bindings
           generateBindingRuntime generateAttributeBindingRuntime)
    in Hcompile as (zen & processedZen & Hparse & Hproc & Hemit).
  rewrite Hexists in Hparse, Hproc, Hemit.
  exists fs1, zen, processedZen. split; [done|]. split_and!; [done..| |].
  - rewrite <-join_file_name by apply index_html_is_file_name.
    apply (emit_writes_index_html _ _ _ _ _ _ _ Hemit).
  - intros q Hbelow Hroot Hother.
    rewrite (touches_emit _ _ _ _ _ _ _ _ q Hemit).
    + by apply cleared_lookup_below.
    + rewrite (length_page_scripts parse5_parse parse5_serialize JSON_stringify
                 binding_descriptors splitZen_bindings generateBindingRuntime
                 generateAttributeBindingRuntime),
        (length_page_styles parse5_parse parse5_serialize).
      intros [Habove|(name & Hname & ->)].
      * apply Hroot. by apply (anti_symm prefix).
      * apply (Hother name Hname), join_file_name.
        by eapply emitted_name_is_file_name.
Qed.

End build_facts.

Lemma build_keeps_only_last_page_witness :
  let run := Build.compile_pages Sample.compile
               [Sample.about_page; Sample.index_page; Sample.about_page]
               Sample.sources in
  run.2 = Fs.Ok tt ∧
  run.1 !! ["playground"; "dist"; "script-1.js"] = None.
Proof.
  intros run.
  assert (run.2 = Fs.Ok tt) as Hreturns by (vm_compute; reflexivity).
  assert (run = (run.1, Fs.Ok tt)) as Hrun
    by (rewrite <-Hreturns; apply surjective_pairing).
  split; [done|].
  destruct (build_keeps_only_last_page Sample.parse Sample.serialize
              (λ _, "[]") (λ zen _ _, Fs.Ok zen) unit (λ _, tt) (λ _, "")
              (λ _, "") [Sample.about_page; Sample.index_page]
              Sample.about_page Sample.sources run.1 Hrun)
    as (fs1 & zen & processedZen & Hpre & Hparse & Hproc & _ & Hgone); [done|].
  apply (f_equal fst) in Hpre. cbn [fst] in Hpre. subst fs1.
  injection Hproc as <-.
  apply (f_equal snd) in Hparse. vm_compute in Hparse. injection Hparse as <-.
  apply Hgone.
  - by exists ["script-1.js"].
  - done.
  - intros name [->|[->|[(i & Hi & ->)|(i & Hi & ->)]]].
    + done.
    + done.
    + simpl in Hi. assert (i = 0) as -> by lia. done.
    + simpl in Hi. lia.
Defined.

(* ===================================================================== *)
(** * The stripped markup *)
(* ===================================================================== *)

Section strip_facts.
Implicit Types (a b s t pat text lowered tag : string) (c : ascii).

Lemma prefix_empty s : String.prefix "" s = true.
Proof. by destruct s. Qed.

Lemma prefix_cons c pat c' s :
  String.prefix (String c pat) (String c' s)
  = bool_decide (c = c') && String.prefix pat s.
Proof.
  cbn [String.prefix]. destruct (ascii_dec c c') as [->|Hne].
  - by rewrite bool_decide_eq_true_2.
  - by rewrite bool_decide_eq_false_2.
Qed.

Lemma includes_cons c s pat :
  Js.includes (String c s) pat
  = String.prefix pat (String c s) || Js.includes s pat.
Proof. reflexivity. Qed.

Lemma includes_iff s pat :
  Js.includes s pat = true ↔ ∃ a b, s = a +:+ pat +:+ b.
Proof.
  split.
  - induction s as [|c s IH].
    + cbn [Js.includes]. rewrite orb_false_r.
      intros [b Hb]%(startsWith_iff "" pat). by exists "", b.
    + rewrite includes_cons. intros [Hpre|Hrest]%orb_true_iff.
      * apply (startsWith_iff (String c s) pat) in Hpre as [b Hb].
        by exists "", b.
      * destruct (IH Hrest) as (a & b & ->). by exists (String c a), b.
  - intros (a & b & ->). induction a as [|c a IH].
    + rewrite str_app_empty_l.
      assert (String.prefix pat (pat +:+ b) = true) as Hpre
        by (apply (startsWith_iff (pat +:+ b) pat); by exists b).
      destruct (pat +:+ b); cbn [Js.includes]; by rewrite Hpre.
    + rewrite str_app_cons, includes_cons, IH. apply orb_true_r.
Qed.

Lemma toLowerCase_app a b :
  Js.toLowerCase (a +:+ b) = Js.toLowerCase a +:+ Js.toLowerCase b.
Proof.
  induction a as [|c a IH]; [done|].
  rewrite str_app_cons. cbn [Js.toLowerCase]. by rewrite IH, str_app_cons.
Qed.

Lemma length_toLowerCase s : String.length (Js.toLowerCase s) = String.length s.
Proof. induction s as [|c s IH]; [done|]. cbn. by rewrite IH. Qed.

Lemma substring_0_prefix pat s :
  String.substring 0 (String.length pat) s = pat → String.prefix pat s = true.
Proof.
  revert s. induction pat as [|c pat IH]; intros s Hsub; [apply prefix_empty|].
  destruct s as [|c' s]; [done|]. simpl in Hsub. injection Hsub as -> Hsub.
  rewrite prefix_cons, bool_decide_eq_true_2 by done. by apply IH.
Qed.

(** An occurrence that [String.index] finds is an occurrence. *)
Lemma substring_includes m pat s :
  String.substring m (String.length pat) s = pat → Js.includes s pat = true.
Proof.
  revert m. induction s as [|c s IH]; intros m Hsub.
  - destruct m; simpl in Hsub.
    + destruct pat; [done|discriminate].
    + subst pat. done.
  - rewrite includes_cons. apply orb_true_iff. destruct m as [|m].
    + left. by apply substring_0_prefix.
    + right. apply (IH m). exact Hsub.
Qed.

Lemma index_includes n pat s m :
  String.index n pat s = Some m → Js.includes s pat = true.
Proof. intros H%String.index_correct1. by eapply substring_includes. Qed.

(** Where the text has no opening tag, or no closing tag, nothing matches. *)
Lemma match_length_None tag lowered :
  Js.includes lowered ("<" +:+ tag) = false ∨
  Js.includes lowered ("</" +:+ tag +:+ ">") = false →
  Split.match_length tag lowered = None.
Proof.
  unfold Split.match_length. intros [Hopen|Hclose].
  - destruct lowered as [|c l]; cbn [Js.includes] in Hopen;
      apply orb_false_iff in Hopen as [-> _]; done.
  - destruct (String.prefix _ _); [|done].
    destruct (String.index _ ">" _) as [gt|]; [|done].
    destruct (String.index _ _ lowered) as [close|] eqn:Hindex; [|done].
    apply index_includes in Hindex. by rewrite Hindex in Hclose.
Qed.

Lemma remove_tag_unchanged tag text :
  Js.includes (Js.toLowerCase text) ("<" +:+ tag) = false ∨
  Js.includes (Js.toLowerCase text) ("</" +:+ tag +:+ ">") = false →
  Split.remove_tag tag text = text.
Proof.
  unfold Split.remove_tag. induction text as [|c text IH]; [done|].
  intros Hno. cbn [Js.toLowerCase Split.remove_matches].
  rewrite match_length_None by exact Hno.
  f_equal. apply IH. cbn [Js.toLowerCase] in Hno.
  rewrite !includes_cons in Hno.
  destruct Hno as [[_ ->]%orb_false_iff|[_ ->]%orb_false_iff]; auto.
Qed.

(** A pass only drops characters. *)
Lemma remove_matches_sublist tag text lowered skip :
  String.list_ascii_of_string (Split.remove_matches tag text lowered skip)
  `sublist_of` String.list_ascii_of_string text.
Proof.
  revert lowered skip. induction text as [|c text IH]; intros lowered skip.
  - apply sublist_nil_l.
  - destruct lowered as [|c' lowered]; [apply sublist_nil_l|].
    cbn [Split.remove_matches String.list_ascii_of_string].
    destruct skip as [|skip]; [|apply sublist_cons, IH].
    destruct (Split.match_length tag (String c' lowered)).
    + apply sublist_cons, IH.
    + cbn [String.list_ascii_of_string]. apply sublist_skip, IH.
Qed.

End strip_facts.

(** Markup without an opening [<script], or without a closing [</script>],
    and likewise for [style], in whatever case, comes back unchanged: an
    unterminated tag is left in place. *)
Theorem strip_unchanged (html : string) :
  let lowered := Js.toLowerCase html in
  Js.includes lowered "<script" = false ∨
  Js.includes lowered "</script>" = false →
  Js.includes lowered "<style" = false ∨
  Js.includes lowered "</style>" = false →
  Split.stripScriptAndStyleTags html = html.
Proof.
  intros lowered Hscript Hstyle. unfold Split.stripScriptAndStyleTags.
  rewrite (remove_tag_unchanged "script") by exact Hscript.
  by apply (remove_tag_unchanged "style").
Qed.

Lemma strip_unchanged_witness :
  Split.stripScriptAndStyleTags "<p>a</p><SCRIPT src=x>one()<style>p{}"
  = "<p>a</p><SCRIPT src=x>one()<style>p{}".
Proof.
  apply (strip_unchanged "<p>a</p><SCRIPT src=x>one()<style>p{}");
    right; reflexivity.
Defined.

(** Stripping only drops characters: what it returns is the markup with
    some characters left out, in the same order. *)
Theorem strip_only_drops (html : string) :
  String.list_ascii_of_string (Split.stripScriptAndStyleTags html)
  `sublist_of` String.list_ascii_of_string html.
Proof.
  unfold Split.stripScriptAndStyleTags, Split.remove_tag.
  etrans; apply remove_matches_sublist.
Qed.

Section occurrence_facts.
Import StripSpec.
Implicit Types (a b s t u v x y pat text lowered tag : string) (c d : ascii).

Lemma has_char_app c a b : has_char c (a +:+ b) ↔ has_char c a ∨ has_char c b.
Proof. unfold has_char. by rewrite list_ascii_app, elem_of_app. Qed.

Lemma has_char_cons c d s : has_char c (String d s) ↔ c = d ∨ has_char c s.
Proof. unfold has_char. cbn [String.list_ascii_of_string]. apply elem_of_cons. Qed.

Lemma has_char_empty c : ¬ has_char c "".
Proof. unfold has_char. apply not_elem_of_nil. Qed.

(** A pattern that begins a text made of two parts begins the first part, or
    the first part is a beginning of the pattern and the rest of the pattern
    begins the second part. *)
Lemma prefix_app_split pat x y :
  String.prefix pat (x +:+ y) = true →
  String.prefix pat x = true ∨
  ∃ rest, pat = x +:+ rest ∧ rest ≠ "" ∧ String.prefix rest y = true.
Proof.
  revert x. induction pat as [|c pat IH]; intros x Hpre.
  - left. apply prefix_empty.
  - destruct x as [|c' x].
    + right. exists (String c pat). by rewrite str_app_empty_l in Hpre.
    + rewrite str_app_cons, prefix_cons in Hpre.
      apply andb_true_iff in Hpre as [Hc Hpre]. apply bool_decide_eq_true in Hc.
      subst c'. destruct (IH x Hpre) as [Hx|(rest & -> & Hne & Hrest)].
      * left. by rewrite prefix_cons, bool_decide_eq_true_2.
      * right. by exists rest.
Qed.

(** A pattern whose first character occurs nowhere else in it overlaps no
    later occurrence of itself. *)
Lemma prefix_straddle c pat x v :
  ¬ has_char c pat → x ≠ "" →
  String.prefix (String c pat) x = false →
  String.prefix (String c pat) (x +:+ String c pat +:+ v) = false.
Proof.
  intros Hc Hx Hpre. apply not_true_is_false. intros Hboth.
  apply prefix_app_split in Hboth as [Hin|(rest & Heq & Hne & Hrest)];
    [by rewrite Hin in Hpre|].
  destruct x as [|c' x]; [done|]. rewrite str_app_cons in Heq.
  injection Heq as <- ->. destruct rest as [|d rest]; [done|].
  rewrite str_app_cons, prefix_cons in Hrest.
  apply andb_true_iff in Hrest as [Hd _]. apply bool_decide_eq_true in Hd.
  subst d. apply Hc, has_char_app. right. apply has_char_cons. by left.
Qed.

Lemma includes_false_cons c s pat :
  Js.includes (String c s) pat = false →
  String.prefix pat (String c s) = false ∧ Js.includes s pat = false.
Proof. rewrite includes_cons. apply orb_false_iff. Qed.

Lemma index_skip w n pat s :
  String.index (String.length w + n) pat (w +:+ s)
  = (λ m, String.length w + m) <$> String.index n pat s.
Proof.
  induction w as [|c w IH].
  - rewrite str_app_empty_l. simpl. by destruct (String.index n pat s).
  - rewrite str_app_cons. cbn [String.length Nat.add String.index].
    rewrite IH. by destruct (String.index n pat s).
Qed.

(** The first occurrence of such a pattern. *)
Lemma index_first c pat u v :
  ¬ has_char c pat → Js.includes u (String c pat) = false →
  String.index 0 (String c pat) (u +:+ String c pat +:+ v)
  = Some (String.length u).
Proof.
  intros Hc. induction u as [|d u IH]; intros Hno.
  - rewrite str_app_empty_l, str_app_cons. cbn [String.index].
    assert (String.prefix (String c pat) (String c (pat +:+ v)) = true) as ->;
      [|done].
    apply (startsWith_iff (String c (pat +:+ v)) (String c pat)). by exists v.
  - apply includes_false_cons in Hno as [Hpre Hno].
    pose proof (prefix_straddle c pat (String d u) v Hc ltac:(done) Hpre)
      as Hhere.
    rewrite str_app_cons in Hhere |- *. cbn [String.index String.length].
    by rewrite Hhere, IH.
Qed.

(** [toLowerCase] moves no character that is not a letter. *)
Lemma lower_char_fixes c d :
  Js.lower_char c = d → nat_of_ascii d < 97 ∨ 122 < nat_of_ascii d → c = d.
Proof.
  unfold Js.lower_char. intros Heq Hd.
  destruct ((65 <=? nat_of_ascii c) && (nat_of_ascii c <=? 90)) eqn:Hupper;
    [|done].
  apply andb_true_iff in Hupper as [H1%Nat.leb_le H2%Nat.leb_le].
  subst d. rewrite nat_ascii_embedding in Hd by lia. lia.
Qed.

Lemma has_char_lower c s :
  nat_of_ascii c < 97 ∨ 122 < nat_of_ascii c →
  has_char c (Js.toLowerCase s) → has_char c s.
Proof.
  intros Hc. induction s as [|d s IH]; [done|]. cbn [Js.toLowerCase].
  rewrite !has_char_cons. intros [Heq|Hin]; [left|right; auto].
  symmetry. by apply lower_char_fixes.
Qed.

Lemma includes_char c s : Js.includes s (String c "") = true → has_char c s.
Proof.
  intros (a & b & ->)%includes_iff. apply has_char_app. right.
  rewrite str_app_cons. apply has_char_cons. by left.
Qed.

Lemma not_has_char_includes c pat s :
  ¬ has_char c s → Js.includes s (String c pat) = false.
Proof.
  intros Hc. apply not_true_is_false. intros (a & b & ->)%includes_iff.
  apply Hc, has_char_app. right. rewrite str_app_cons.
  apply has_char_cons. by left.
Qed.

End occurrence_facts.

Section pass_facts.
Import StripSpec.
Implicit Types (a b s t u v x y pat text lowered tag : string) (c d : ascii).

(** Over characters where nothing matches, a pass copies. *)
Lemma remove_matches_pass tag x lx y ly :
  String.length lx = String.length x →
  (∀ u v, lx = u +:+ v → v ≠ "" →
          String.prefix ("<" +:+ tag) (v +:+ ly) = false) →
  Split.remove_matches tag (x +:+ y) (lx +:+ ly) 0
  = x +:+ Split.remove_matches tag y ly 0.
Proof.
  revert lx. induction x as [|c x IH]; intros lx Hlen Hno.
  - destruct lx; [done|discriminate].
  - destruct lx as [|c' lx]; [discriminate|].
    assert (Split.match_length tag (String c' (lx +:+ ly)) = None) as Hnone.
    { unfold Split.match_length.
      pose proof (Hno "" (String c' lx) eq_refl ltac:(done)) as Hhere.
      change (String c' lx +:+ ly) with (String c' (lx +:+ ly)) in Hhere.
      by rewrite Hhere. }
    rewrite !str_app_cons. cbn [Split.remove_matches]. rewrite Hnone.
    f_equal. apply IH.
    + by injection Hlen.
    + intros u v -> Hv. by apply (Hno (String c' u) v).
Qed.

(** Text without [<] is copied. *)
Lemma remove_tag_plain tag a y :
  ¬ has_char "<" a →
  Split.remove_tag tag (a +:+ y) = a +:+ Split.remove_tag tag y.
Proof.
  intros Ha. unfold Split.remove_tag. rewrite toLowerCase_app.
  apply remove_matches_pass; [apply length_toLowerCase|].
  intros u v Heq Hv. destruct v as [|c v]; [done|].
  rewrite !str_app_cons, prefix_cons.
  apply andb_false_iff. left. apply bool_decide_eq_false. intros <-.
  apply Ha, (has_char_lower "<"); [vm_compute; lia|].
  rewrite Heq. apply has_char_app. right. apply has_char_cons. by left.
Qed.

Lemma last_char_of_suffix u v x' c :
  u +:+ v = x' +:+ String c "" → v ≠ "" → ∃ v', v = v' +:+ String c "".
Proof.
  intros Heq Hv. apply (f_equal String.list_ascii_of_string) in Heq.
  rewrite !list_ascii_app in Heq. cbn [String.list_ascii_of_string] in Heq.
  destruct (String.list_ascii_of_string v) as [|d l] eqn:Hl using rev_ind.
  - destruct v; [done|discriminate].
  - clear IHl. rewrite app_assoc in Heq.
    apply app_inj_2 in Heq as [_ [= ->]]; [|done].
    exists (String.string_of_list_ascii l).
    rewrite <-(String.string_of_list_ascii_of_string v), Hl.
    clear. induction l as [|d l IH]; [done|].
    cbn [app String.string_of_list_ascii]. by rewrite IH.
Qed.

(** Text that holds no opening tag and ends in [>] is copied. *)
Lemma remove_tag_closed tag x y :
  ¬ has_char ">" tag →
  Js.includes (Js.toLowerCase x) ("<" +:+ tag) = false →
  (∃ x', Js.toLowerCase x = x' +:+ ">") →
  Split.remove_tag tag (x +:+ y) = x +:+ Split.remove_tag tag y.
Proof.
  intros Htag Hno [x' Hlast]. unfold Split.remove_tag. rewrite toLowerCase_app.
  apply remove_matches_pass; [apply length_toLowerCase|].
  intros u v Heq Hv. apply not_true_is_false. intros Hpre.
  apply prefix_app_split in Hpre as [Hin|(rest & Hpat & Hne & _)].
  - assert (Js.includes (Js.toLowerCase x) ("<" +:+ tag) = true) as Hyes;
      [|by rewrite Hyes in Hno].
    apply (startsWith_iff v ("<" +:+ tag)) in Hin as [w ->].
    apply includes_iff. exists u, w. by rewrite Heq.
  - rewrite Heq in Hlast.
    apply last_char_of_suffix in Hlast as [v' ->]; [|done].
    assert (has_char ">" ("<" +:+ tag)) as Hgt.
    { rewrite Hpat. apply has_char_app. left. apply has_char_app. right.
      apply has_char_cons. by left. }
    rewrite str_app_cons in Hgt. apply has_char_cons in Hgt as [|Hgt]; done.
Qed.

(** Characters to skip are dropped one by one. *)
Lemma remove_matches_skip tag x lx t lt :
  String.length lx = String.length x →
  Split.remove_matches tag (x +:+ t) (lx +:+ lt) (String.length x)
  = Split.remove_matches tag t lt 0.
Proof.
  revert lx. induction x as [|c x IH]; intros lx Hlen.
  - destruct lx; [done|discriminate].
  - destruct lx as [|c' lx]; [discriminate|].
    rewrite !str_app_cons. cbn [Split.remove_matches String.length].
    apply IH. by injection Hlen.
Qed.

Lemma has_char_literal c s :
  forallb (λ d, negb (Ascii.eqb d c)) (String.list_ascii_of_string s) = true →
  ¬ has_char c s.
Proof.
  unfold has_char. rewrite forallb_forall. intros Hall Hin%list_elem_of_In.
  apply Hall in Hin. by rewrite Ascii.eqb_refl in Hin.
Qed.

(** Where an element of the tag starts, the match is the whole element. *)
Lemma match_length_element tag lattrs lbody lb :
  ¬ has_char "<" tag →
  ¬ has_char ">" lattrs →
  Js.includes lbody ("</" +:+ tag +:+ ">") = false →
  Split.match_length tag
    (("<" +:+ tag) +:+ lattrs +:+ ">" +:+ lbody +:+ ("</" +:+ tag +:+ ">") +:+ lb)
  = Some (String.length
            (("<" +:+ tag) +:+ lattrs +:+ ">" +:+ lbody +:+ ("</" +:+ tag +:+ ">"))).
Proof.
  intros Htag Hattrs Hbody. unfold Split.match_length.
  set (open := "<" +:+ tag). set (close := "</" +:+ tag +:+ ">").
  assert (String.prefix open
            (open +:+ lattrs +:+ ">" +:+ lbody +:+ close +:+ lb) = true) as ->.
  { apply (startsWith_iff _ open). by eexists. }
  assert (String.length tag + 1 = String.length open + 0) as ->
    by (unfold open; rewrite str_length_app; simpl; lia).
  rewrite index_skip.
  rewrite (index_first ">" "" lattrs (lbody +:+ close +:+ lb));
    [|apply has_char_empty|by apply not_has_char_includes].
  cbn [fmap option_fmap option_map].
  assert (open +:+ lattrs +:+ ">" +:+ lbody +:+ close +:+ lb
          = (open +:+ lattrs +:+ ">") +:+ lbody +:+ close +:+ lb) as ->
    by by rewrite !str_app_assoc.
  assert (String.length open + String.length lattrs + 1
          = String.length (open +:+ lattrs +:+ ">") + 0) as ->
    by (rewrite !str_length_app; simpl; lia).
  rewrite index_skip.
  assert (close = String "<" ("/" +:+ tag +:+ ">")) as Hclose by reflexivity.
  rewrite Hclose.
  rewrite (index_first "<" ("/" +:+ tag +:+ ">") lbody lb); [|..|done].
  - cbn [fmap option_fmap option_map]. f_equal.
    rewrite <-Hclose. rewrite !str_length_app. unfold close.
    rewrite !str_length_app. simpl. lia.
  - rewrite str_app_cons, str_app_empty_l.
    intros [|[|]%has_char_app]%has_char_cons; [done|done|].
    by apply has_char_cons in H as [|?%has_char_empty].
Qed.

Lemma remove_tag_element tag open attrs body close b :
  ¬ has_char "<" tag →
  Js.toLowerCase open = "<" +:+ tag →
  ¬ has_char ">" attrs →
  Js.toLowerCase close = "</" +:+ tag +:+ ">" →
  Js.includes (Js.toLowerCase body) ("</" +:+ tag +:+ ">") = false →
  Split.remove_tag tag (open +:+ attrs +:+ ">" +:+ body +:+ close +:+ b)
  = Split.remove_tag tag b.
Proof.
  intros Htag Hopen Hattrs Hclose Hbody. unfold Split.remove_tag.
  rewrite !toLowerCase_app, Hopen, Hclose.
  change (Js.toLowerCase ">") with ">".
  pose proof (match_length_element tag (Js.toLowerCase attrs)
                (Js.toLowerCase body) (Js.toLowerCase b) Htag) as Hmatch.
  specialize (Hmatch ltac:(intros Hin; apply Hattrs; revert Hin;
                             apply has_char_lower; vm_compute; lia) Hbody).
  set (element := open +:+ attrs +:+ ">" +:+ body +:+ close).
  set (lowered := ("<" +:+ tag) +:+ Js.toLowerCase attrs +:+ ">"
                    +:+ Js.toLowerCase body +:+ "</" +:+ tag +:+ ">") in *.
  assert (String.length lowered = String.length element) as Hlen.
  { unfold lowered. rewrite <-Hopen, <-Hclose.
    change ">" with (Js.toLowerCase ">") at 1.
    rewrite <-!toLowerCase_app. apply length_toLowerCase. }
  assert (open +:+ attrs +:+ ">" +:+ body +:+ close +:+ b = element +:+ b) as ->
    by (unfold element; by rewrite !str_app_assoc).
  assert (("<" +:+ tag) +:+ Js.toLowerCase attrs +:+ ">"
            +:+ Js.toLowerCase body +:+ ("</" +:+ tag +:+ ">")
            +:+ Js.toLowerCase b
          = lowered +:+ Js.toLowerCase b) as Hlow
    by (unfold lowered; by rewrite !str_app_assoc).
  rewrite Hlow in Hmatch |- *. clear Hlow.
  clearbody element lowered.
  destruct element as [|c element]; [by destruct lowered|].
  destruct lowered as [|c' lowered]; [discriminate|].
  change (String c' lowered +:+ Js.toLowerCase b)
    with (String c' (lowered +:+ Js.toLowerCase b)) in *.
  rewrite str_app_cons. cbn [Split.remove_matches]. rewrite Hmatch.
  cbn [String.length]. rewrite Nat.sub_succ, Nat.sub_0_r.
  injection Hlen as Hlen. rewrite Hlen.
  by apply remove_matches_skip.
Qed.

End pass_facts.

Section strip_theorems.
Import StripSpec.

(** A script element after plain text is removed, whatever the case of its
    tags and whatever its attributes, and stripping goes on after it. *)
Theorem strip_removes_script_element (a open attrs body close b : string) :
  ¬ has_char "<" a →
  Js.toLowerCase open = "<script" →
  ¬ has_char ">" attrs →
  Js.toLowerCase close = "</script>" →
  Js.includes (Js.toLowerCase body) "</script>" = false →
  Split.stripScriptAndStyleTags
    (a +:+ open +:+ attrs +:+ ">" +:+ body +:+ close +:+ b)
  = a +:+ Split.stripScriptAndStyleTags b.
Proof.
  intros Ha Hopen Hattrs Hclose Hbody. unfold Split.stripScriptAndStyleTags.
  rewrite (remove_tag_plain "script") by done.
  rewrite (remove_tag_element "script") by (done || by apply has_char_literal).
  by rewrite (remove_tag_plain "style").
Qed.

(** The same for a style element that holds no opening script tag. *)
Theorem strip_removes_style_element (a open attrs body close b : string) :
  ¬ has_char "<" a →
  Js.toLowerCase open = "<style" →
  ¬ has_char ">" attrs →
  Js.toLowerCase close = "</style>" →
  Js.includes (Js.toLowerCase body) "</style>" = false →
  Js.includes
    (Js.toLowerCase (open +:+ attrs +:+ ">" +:+ body +:+ close)) "<script"
  = false →
  Split.stripScriptAndStyleTags
    (a +:+ open +:+ attrs +:+ ">" +:+ body +:+ close +:+ b)
  = a +:+ Split.stripScriptAndStyleTags b.
Proof.
  intros Ha Hopen Hattrs Hclose Hbody Hscript.
  unfold Split.stripScriptAndStyleTags.
  rewrite (remove_tag_plain "script") by done.
  assert (open +:+ attrs +:+ ">" +:+ body +:+ close +:+ b
          = (open +:+ attrs +:+ ">" +:+ body +:+ close) +:+ b) as ->
    by by rewrite !str_app_assoc.
  rewrite (remove_tag_closed "script"); [|by apply has_char_literal|done|].
  - rewrite (remove_tag_plain "style") by done. f_equal.
    rewrite !str_app_assoc.
    by apply (remove_tag_element "style"); [apply has_char_literal|..].
  - rewrite <-!str_app_assoc, toLowerCase_app, Hclose.
    eexists. by rewrite <-(str_app_assoc _ "</style" ">").
Qed.

End strip_theorems.

Lemma strip_removes_script_element_witness :
  Split.stripScriptAndStyleTags "Hi <SCRIPT src=x>one()</Script><p>b</p>"
  = "Hi <p>b</p>".
Proof.
  etrans; [apply (strip_removes_script_element "Hi " "<SCRIPT" " src=x"
                    "one()" "</Script>" "<p>b</p>")|reflexivity];
    try reflexivity; by apply has_char_literal.
Defined.

Lemma strip_removes_style_element_witness :
  Split.stripScriptAndStyleTags "Hi <Style media=all>p{}</STYLE><script>"
  = "Hi <script>".
Proof.
  etrans; [apply (strip_removes_style_element "Hi " "<Style" " media=all"
                    "p{}" "</STYLE>" "<script>")|reflexivity];
    try reflexivity; by apply has_char_literal.
Defined.

(* ===================================================================== *)
(** * The links in the emitted HTML *)
(* ===================================================================== *)

Section replace_facts.
Import StripSpec.
Implicit Types (a b s t u v x y pat rep ins : string) (c d : ascii).

Lemma str_app_eq_inv a b u v :
  a +:+ b = u +:+ v →
  (∃ k, a = u +:+ k ∧ v = k +:+ b) ∨ (∃ k, u = a +:+ k ∧ b = k +:+ v).
Proof.
  revert u. induction a as [|c a IH]; intros u Heq.
  - right. exists u. by rewrite str_app_empty_l in Heq.
  - destruct u as [|c' u].
    + left. exists (String c a). by rewrite str_app_empty_l in Heq.
    + rewrite !str_app_cons in Heq. injection Heq as <- Heq.
      destruct (IH u Heq) as [(k & -> & ->)|(k & -> & ->)].
      * left. by exists k.
      * right. by exists k.
Qed.

(** [replace] puts the replacement where the pattern first stands. *)
Lemma replace_spec s pat rep :
  Js.includes s pat = true →
  ∃ a b, s = a +:+ pat +:+ b ∧ Js.replace s pat rep = a +:+ rep +:+ b.
Proof.
  induction s as [|c s IH]; intros Hin.
  - cbn [Js.includes] in Hin. rewrite orb_false_r in Hin.
    cbn [Js.replace]. rewrite Hin.
    apply (startsWith_iff "" pat) in Hin as [b Hb].
    destruct pat; [|discriminate]. rewrite str_app_empty_l in Hb. subst b.
    exists "", "". split; [done|]. by rewrite str_app_empty_l.
  - cbn [Js.replace]. destruct (String.prefix pat (String c s)) eqn:Hpre.
    + apply (startsWith_iff (String c s) pat) in Hpre as [b Hb].
      exists "", b. split; [done|]. rewrite Hb.
      by rewrite (slice_from_app pat b).
    + rewrite includes_cons, Hpre in Hin.
      destruct (IH Hin) as (a & b & -> & ->).
      by exists (String c a), b.
Qed.

Lemma includes_app_l s x pat :
  Js.includes s pat = true → Js.includes (x +:+ s) pat = true.
Proof.
  intros (a & b & ->)%includes_iff. apply includes_iff.
  exists (x +:+ a), b. by rewrite str_app_assoc.
Qed.

Lemma includes_app_r s y pat :
  Js.includes s pat = true → Js.includes (s +:+ y) pat = true.
Proof.
  intros (a & b & ->)%includes_iff. apply includes_iff.
  exists a, (b +:+ y). by rewrite !str_app_assoc.
Qed.

Lemma includes_refl pat : Js.includes pat pat = true.
Proof. apply includes_iff. exists "", "". by rewrite str_app_empty_r. Qed.

(** A tag [x] that stands in a text still stands in it after something was
    put before another tag of the text: no two tags overlap, as the character
    that begins them occurs nowhere else in them. *)
Lemma includes_insert_before c x pat a b ins :
  ¬ has_char c x → ¬ has_char c pat →
  Js.includes (a +:+ String c pat +:+ b) (String c x) = true →
  Js.includes (a +:+ (ins +:+ String c pat) +:+ b) (String c x) = true.
Proof.
  intros Hx Hpat (u & v & Heq)%includes_iff. apply includes_iff.
  rewrite (str_app_assoc ins).
  apply str_app_eq_inv in Heq as [(k & -> & Heq)|(k & -> & Heq)].
  - symmetry in Heq.
    apply str_app_eq_inv in Heq as [(k2 & Hk & ->)|(k2 & Heq & Hb)].
    + (* the tag lies inside [a] *)
      exists u, (k2 +:+ ins +:+ String c pat +:+ b).
      by rewrite Hk, !str_app_assoc.
    + destruct k2 as [|e k2].
      * rewrite str_app_empty_r in Heq. rewrite str_app_empty_l in Hb.
        exists u, (ins +:+ String c pat +:+ b).
        by rewrite <-Heq, !str_app_assoc.
      * rewrite !str_app_cons in Hb. injection Hb as <- Hb.
        destruct k as [|e' k].
        -- rewrite str_app_empty_l in Heq. rewrite str_app_empty_r.
           exists (u +:+ ins), v.
           by rewrite Heq, !str_app_assoc, !str_app_cons, Hb.
        -- exfalso. rewrite str_app_cons in Heq. injection Heq as _ ->.
           apply Hx, has_char_app. right. apply has_char_cons. by left.
  - apply str_app_eq_inv in Heq as [(k2 & Hk & Hv)|(k2 & -> & ->)].
    + destruct k2 as [|e k2].
      * rewrite str_app_empty_r in Hk. rewrite str_app_empty_l in Hv.
        exists (a +:+ ins +:+ String c pat), v.
        by rewrite <-Hv, !str_app_assoc.
      * rewrite !str_app_cons in Hv. injection Hv as -> Hv.
        destruct k as [|e' k].
        -- rewrite str_app_empty_l in Hk. exists (a +:+ ins), v.
           rewrite !str_app_assoc. do 2 f_equal.
           by rewrite Hk, !str_app_cons, Hv.
        -- exfalso. rewrite str_app_cons in Hk. injection Hk as _ ->.
           apply Hpat, has_char_app. right. apply has_char_cons. by left.
    + exists (a +:+ ins +:+ String c pat +:+ k2), v.
      by rewrite !str_app_assoc.
Qed.

End replace_facts.

Section link_facts.
Import StripSpec.
Implicit Types (a b s t u v x y pat rep ins : string) (c d : ascii).

Lemma includes_join sep xs x : x ∈ xs → Js.includes (Js.join sep xs) x = true.
Proof.
  unfold Js.join. induction xs as [|y xs IH]; [by intros ?%elem_of_nil|].
  intros [->|Hin]%elem_of_cons.
  - destruct xs; [apply includes_refl|].
    cbn [String.concat]. apply includes_app_r, includes_refl.
  - destruct xs as [|z xs]; [by apply elem_of_nil in Hin|].
    cbn [String.concat]. do 2 apply includes_app_l. by apply IH.
Qed.

Lemma includes_nonempty s x : Js.includes s x = true → x ≠ "" → Js.truthy s = true.
Proof.
  intros (a & b & ->)%includes_iff Hx. apply truthy_iff. intros Heq.
  apply (f_equal String.length) in Heq. rewrite !str_length_app in Heq.
  destruct x; [done|]. simpl in Heq. lia.
Qed.

Lemma uint_digits c (d : Decimal.uint) :
  has_char c (DecimalString.NilEmpty.string_of_uint d) →
  48 ≤ nat_of_ascii c ≤ 57.
Proof.
  induction d as [|d IH|d IH|d IH|d IH|d IH|d IH|d IH|d IH|d IH|d IH];
    cbn [DecimalString.NilEmpty.string_of_uint];
    [by intros ?%has_char_empty
    |intros [->|Hin]%has_char_cons; [vm_compute; lia|by apply IH]..].
Qed.

Lemma of_nat_digits c i : has_char c (Js.of_nat i) → 48 ≤ nat_of_ascii c ≤ 57.
Proof.
  unfold Js.of_nat, DecimalString.NilZero.string_of_uint.
  destruct (Nat.to_uint i) eqn:Hd; try (rewrite <-Hd; apply uint_digits).
  intros [->|Hin%has_char_empty]%has_char_cons; [vm_compute; lia|done].
Qed.

Lemma faviconLink_tag :
  ∃ x, Emit.faviconLink = String "<" x ∧ ¬ has_char "<" x.
Proof.
  eexists. split; [reflexivity|]. apply has_char_literal. vm_compute. reflexivity.
Qed.

Lemma styleLink_tag i :
  ∃ x, Emit.styleLink i = String "<" x ∧ ¬ has_char "<" x.
Proof.
  exists ("link rel=" +:+ Js.dq +:+ "stylesheet" +:+ Js.dq +:+ " href=" +:+ Js.dq
            +:+ "./style-" +:+ Js.of_nat i +:+ ".css" +:+ Js.dq +:+ ">").
  split; [reflexivity|]. intros Hin.
  repeat (apply has_char_app in Hin as [Hin|Hin]);
    try (revert Hin; apply has_char_literal; vm_compute; reflexivity).
  apply of_nat_digits in Hin. vm_compute in Hin. lia.
Qed.

(** What was put before a closing tag, or else before or after the text, is
    in the result, and so is every tag the text held. *)
Lemma inject_holds s pat ins other x :
  Js.includes ins x = true →
  Js.includes other x = true →
  Js.includes (if Js.includes s pat then Js.replace s pat (ins +:+ pat)
               else other) x = true.
Proof.
  intros Hins Hother. destruct (Js.includes s pat) eqn:Hpat; [|done].
  destruct (replace_spec s pat (ins +:+ pat) Hpat) as (a & b & _ & ->).
  by apply includes_app_l, includes_app_r, includes_app_r.
Qed.

Lemma inject_keeps s pat ins other x :
  ¬ has_char "<" x → ¬ has_char "<" pat →
  Js.includes s (String "<" x) = true →
  Js.includes other (String "<" x) = true →
  Js.includes (if Js.includes s (String "<" pat)
               then Js.replace s (String "<" pat) (ins +:+ String "<" pat)
               else other) (String "<" x) = true.
Proof.
  intros Hx Hp Hs Hother.
  destruct (Js.includes s (String "<" pat)) eqn:Hpat; [|done].
  destruct (replace_spec s (String "<" pat) (ins +:+ String "<" pat) Hpat)
    as (a & b & Heq & ->).
  apply includes_insert_before; [done..|]. by rewrite <-Heq.
Qed.

End link_facts.

(** The emitted HTML always holds the favicon link, one stylesheet link for
    every style and one script tag for every script. *)
Theorem outputHTML_holds_links (html : string) (scripts styles : list string) :
  let out := Emit.outputHTML html scripts styles in
  Js.includes out Emit.faviconLink = true ∧
  (∀ i, i < length styles → Js.includes out (Emit.styleLink i) = true) ∧
  (∀ i, i < length scripts → Js.includes out (Emit.scriptTag i) = true).
Proof.
  intros out. unfold out, Emit.outputHTML.
  set (styleLinks := Js.join Js.nl (imap (λ i _, Emit.styleLink i) styles)).
  set (scriptTags := Js.join Js.nl (imap (λ i _, Emit.scriptTag i) scripts)).
  assert (∀ i, i < length styles →
               Js.includes styleLinks (Emit.styleLink i) = true) as Hstyles.
  { intros i [s Hs]%lookup_lt_is_Some. apply includes_join.
    apply list_elem_of_lookup. exists i. by rewrite list_lookup_imap, Hs. }
  assert (∀ i, i < length scripts →
               Js.includes scriptTags (Emit.scriptTag i) = true) as Hscripts.
  { intros i [s Hs]%lookup_lt_is_Some. apply includes_join.
    apply list_elem_of_lookup. exists i. by rewrite list_lookup_imap, Hs. }
  destruct faviconLink_tag as (fx & Hfav & Hfx).
  set (html1 := if Js.includes html "</head>" then _ else _).
  assert (Js.includes html1 Emit.faviconLink = true) as H1.
  { unfold html1.
    assert (Emit.faviconLink +:+ Js.nl +:+ "</head>"
            = (Emit.faviconLink +:+ Js.nl) +:+ "</head>") as ->
      by by rewrite str_app_assoc.
    apply inject_holds; [apply includes_app_r, includes_refl|].
    destruct (Js.includes html "<head>") eqn:Hhead.
    - destruct (replace_spec html "<head>"
                  ("<head>" +:+ Js.nl +:+ Emit.faviconLink) Hhead)
        as (a & b & _ & ->).
      apply includes_app_l, includes_app_r.
      do 2 apply includes_app_l. apply includes_refl.
    - apply includes_app_r, includes_refl. }
  set (html2 := if Js.truthy styleLinks then _ else html1).
  assert (Js.includes html2 Emit.faviconLink = true ∧
          ∀ i, i < length styles →
               Js.includes html2 (Emit.styleLink i) = true) as [H2 H2s].
  { unfold html2. destruct (Js.truthy styleLinks) eqn:Htruthy.
    - assert (styleLinks +:+ Js.nl +:+ "</head>"
              = (styleLinks +:+ Js.nl) +:+ String "<" "/head>") as ->
        by by rewrite str_app_assoc.
      split.
      + rewrite Hfav in *.
        apply (inject_keeps html1 "/head>");
          [done|by apply has_char_literal|done|].
        by do 2 apply includes_app_l.
      + intros i Hi. apply inject_holds.
        * by apply includes_app_r, Hstyles.
        * by apply includes_app_r, Hstyles.
    - split; [done|]. intros i Hi.
      destruct (styleLink_tag i) as (x & Hx & _).
      rewrite (includes_nonempty styleLinks (Emit.styleLink i)) in Htruthy;
        [done|by apply Hstyles|by rewrite Hx]. }
  destruct (Js.truthy scriptTags) eqn:Htruthy.
  - assert (scriptTags +:+ Js.nl +:+ "</body>"
            = (scriptTags +:+ Js.nl) +:+ String "<" "/body>") as ->
      by by rewrite str_app_assoc.
    split_and!.
    + rewrite Hfav in *.
      apply (inject_keeps html2 "/body>");
        [done|by apply has_char_literal|done|].
      by apply includes_app_r.
    + intros i Hi. destruct (styleLink_tag i) as (x & Hx & Hnot).
      specialize (H2s i Hi). rewrite Hx in *.
      apply (inject_keeps html2 "/body>");
        [done|by apply has_char_literal|done|].
      by apply includes_app_r.
    + intros i Hi. apply inject_holds.
      * by apply includes_app_r, Hscripts.
      * by do 2 apply includes_app_l; apply Hscripts.
  - split_and!; [done..|]. intros i Hi.
    rewrite (includes_nonempty scriptTags (Emit.scriptTag i)) in Htruthy;
      [done|by apply Hscripts|done].
Qed.

(* ===================================================================== *)
(** * The resolver stays under the output root *)
(* ===================================================================== *)

Section root_facts.
Import EmitSpec.

Lemma push_segment_grows stack base seg :
  seg ≠ ".." →
  ∃ stack', Path.push_segment (stack ++ base) seg = stack' ++ base.
Proof.
  intros Hseg. unfold Path.push_segment.
  destruct (decide (seg = "" ∨ seg = ".")); [by exists stack|].
  rewrite decide_False by done. by exists (seg :: stack).
Qed.

Lemma foldl_push_grows segs stack base :
  ".." ∉ segs →
  ∃ stack', foldl Path.push_segment (stack ++ base) segs = stack' ++ base.
Proof.
  revert stack. induction segs as [|seg segs IH]; intros stack Hno.
  - by exists stack.
  - apply not_elem_of_cons in Hno as [Hseg Hno]. cbn [foldl].
    destruct (push_segment_grows stack base seg) as [stack' ->]; [done|].
    by apply IH.
Qed.

(** A path written as the output root, a slash and segments without [..]
    lies under the output root. *)
Lemma normalize_under_root rest :
  ".." ∉ Js.split "/" rest →
  ["playground"; "dist"] `prefix_of`
    Path.normalize ("./playground/dist" +:+ "/" +:+ rest).
Proof.
  intros Hno. unfold Path.normalize.
  rewrite split_app_slash, foldl_app.
  assert (Js.startsWith ("./playground/dist" +:+ "/" +:+ rest) "/" = false)
    as -> by reflexivity.
  change (foldl Path.push_segment [] (Js.split "/" "./playground/dist"))
    with ([] ++ ["dist"; "playground"]).
  destruct (foldl_push_grows (Js.split "/" rest) [] ["dist"; "playground"])
    as [stack' ->]; [done|].
  rewrite rev_app_distr. by eexists.
Qed.

Lemma split_app_no_slash a b :
  no_slash b →
  ∃ init last, Js.split "/" a = init ++ [last] ∧
               Js.split "/" (a +:+ b) = init ++ [last +:+ b].
Proof.
  intros Hb. induction a as [|c a (init & last & Ha & Hab)].
  - exists [], "". rewrite str_app_empty_l. split; [done|].
    by apply split_no_slash.
  - rewrite str_app_cons. cbn [Js.split]. rewrite Ha, Hab.
    destruct (Ascii.eqb c "/").
    + by exists ("" :: init), last.
    + destruct init as [|h init].
      * by exists [], (String c last).
      * by exists (String c h :: init), last.
Qed.

End root_facts.

(** For a pathname as a URL gives it, beginning with a slash and without a
    [..] segment, the file the resolver returns lies under the output root. *)
Theorem resolve_stays_under_root (fs : Fs.FS) (pathname : string) :
  Js.startsWith pathname "/" = true →
  ".." ∉ Js.split "/" pathname →
  ∃ file, Serve.resolve pathname fs = (fs, Fs.Ok file) ∧
          ["playground"; "dist"] `prefix_of` Path.normalize file.
Proof.
  intros [rest ->]%startsWith_iff Hno.
  assert (".." ∉ Js.split "/" rest) as Hrest.
  { intros Hin. apply Hno. rewrite str_app_cons, str_app_empty_l.
    cbn [Js.split]. change (Ascii.eqb "/" "/") with true. cbn.
    by apply list_elem_of_further. }
  destruct (resolve_decision_order fs ("/" +:+ rest))
    as (file & Hrun & Hasset & Hpage).
  exists file. split; [done|].
  assert (["playground"; "dist"] `prefix_of`
            Path.normalize ("./playground/dist" +:+ ("/" +:+ rest) +:+ ".html"))
    as Hhtml.
  { rewrite (str_app_assoc "/" rest). apply normalize_under_root.
    destruct (split_app_no_slash rest ".html") as (init & last & Ha & ->);
      [by apply literal_no_slash|].
    rewrite Ha in Hrest. apply not_elem_of_app in Hrest as [Hinit _].
    apply not_elem_of_app. split; [done|].
    intros Heq%list_elem_of_singleton. apply (f_equal String.length) in Heq.
    rewrite str_length_app in Heq. simpl in Heq. lia. }
  assert (["playground"; "dist"] `prefix_of`
            Path.normalize
              ("./playground/dist" +:+ ("/" +:+ rest) +:+ "/index.html"))
    as Hindex.
  { rewrite (str_app_assoc "/" rest). apply normalize_under_root.
    change (rest +:+ "/index.html") with (rest +:+ "/" +:+ "index.html").
    rewrite (split_app_slash rest "index.html").
    apply not_elem_of_app. split; [done|].
    by intros [=]%list_elem_of_singleton. }
  destruct (Serve.is_static_asset ("/" +:+ rest)) eqn:Hkind.
  - rewrite (Hasset eq_refl). by apply normalize_under_root.
  - destruct (Hpage eq_refl) as (Hroot & Hflat & Hnested & Hfallback).
    destruct (decide ("/" +:+ rest = "/")) as [Heq|Hne].
    { rewrite (Hroot Heq). by exists ["index.html"]. }
    destruct (Fs.exists_at fs
                (Path.normalize
                   ("./playground/dist" +:+ ("/" +:+ rest) +:+ ".html")))
      eqn:H1.
    { by rewrite (Hflat Hne eq_refl). }
    destruct (Fs.exists_at fs
                (Path.normalize
                   ("./playground/dist" +:+ ("/" +:+ rest) +:+ "/index.html")))
      eqn:H2.
    { by rewrite (Hnested Hne eq_refl eq_refl). }
    rewrite (Hfallback Hne eq_refl eq_refl). by exists ["index.html"].
Qed.

Lemma resolve_stays_under_root_witness :
  ∃ file, Serve.resolve "/blog/post" tree_with_both_about
          = (tree_with_both_about, Fs.Ok file) ∧
          ["playground"; "dist"] `prefix_of` Path.normalize file.
Proof.
  apply (resolve_stays_under_root tree_with_both_about "/blog/post").
  - reflexivity.
  - intros Hin. vm_compute in Hin.
    repeat (apply elem_of_cons in Hin as [Hin|Hin]; [discriminate|]).
    by apply elem_of_nil in Hin.
Defined.

(* ===================================================================== *)
(** * The page markup inside the emitted HTML *)
(* ===================================================================== *)

Section markup_facts.
Implicit Types (a b s pat rep ins : string).

Lemma replace_absent s pat rep :
  Js.includes s pat = false → Js.replace s pat rep = s.
Proof.
  induction s as [|c s IH]; intros Hno.
  - cbn [Js.includes] in Hno. rewrite orb_false_r in Hno.
    cbn [Js.replace]. by rewrite Hno.
  - apply includes_false_cons in Hno as [Hpre Hno].
    cbn [Js.replace]. rewrite Hpre. by rewrite IH.
Qed.

Lemma replace_sublist s pat rep :
  String.list_ascii_of_string pat `sublist_of` String.list_ascii_of_string rep →
  String.list_ascii_of_string s
  `sublist_of` String.list_ascii_of_string (Js.replace s pat rep).
Proof.
  intros Hrep. destruct (Js.includes s pat) eqn:Hin.
  - destruct (replace_spec s pat rep Hin) as (a & b & Hs & ->).
    rewrite Hs at 1. rewrite !list_ascii_app.
    apply sublist_app; [done|]. by apply sublist_app.
  - by rewrite replace_absent.
Qed.

End markup_facts.

(** [emit] only puts links into the page markup: the markup stands in the
    emitted HTML, character by character and in order. *)
Theorem outputHTML_keeps_markup (html : string) (scripts styles : list string) :
  String.list_ascii_of_string html
  `sublist_of`
  String.list_ascii_of_string (Emit.outputHTML html scripts styles).
Proof.
  unfold Emit.outputHTML.
  set (styleLinks := Js.join Js.nl (imap (λ i _, Emit.styleLink i) styles)).
  set (scriptTags := Js.join Js.nl (imap (λ i _, Emit.scriptTag i) scripts)).
  set (html1 := if Js.includes html "</head>" then _ else _).
  assert (String.list_ascii_of_string html
          `sublist_of` String.list_ascii_of_string html1) as H1.
  { unfold html1. destruct (Js.includes html "</head>").
    - apply replace_sublist. rewrite !list_ascii_app.
      by do 2 apply sublist_inserts_l.
    - destruct (Js.includes html "<head>").
      + apply replace_sublist. rewrite !list_ascii_app.
        by apply sublist_inserts_r.
      + rewrite !list_ascii_app. by do 2 apply sublist_inserts_l. }
  set (html2 := if Js.truthy styleLinks then _ else html1).
  assert (String.list_ascii_of_string html1
          `sublist_of` String.list_ascii_of_string html2) as H2.
  { unfold html2. destruct (Js.truthy styleLinks); [|done].
    destruct (Js.includes html1 "</head>").
    - apply replace_sublist. rewrite !list_ascii_app.
      by do 2 apply sublist_inserts_l.
    - rewrite !list_ascii_app. by do 2 apply sublist_inserts_l. }
  etrans; [exact H1|]. etrans; [exact H2|].
  destruct (Js.truthy scriptTags); [|done].
  destruct (Js.includes html2 "</body>").
  - apply replace_sublist. rewrite !list_ascii_app.
    by do 2 apply sublist_inserts_l.
  - rewrite !list_ascii_app. by apply sublist_inserts_r.
Qed.

(* ===================================================================== *)
(** * When [emit] returns *)
(* ===================================================================== *)

Section returns_facts.
Import FsSpec EmitSpec ReadySpec.








End returns_facts.


(* ===================================================================== *)
(** * The older [compile], from the entry to the files *)
(* ===================================================================== *)

Section side_files_of_emit.
Import FsSpec EmitSpec.

Lemma emit_Ok_script outDir html scripts styles entryPath fs fs' i s :
  Emit.emit outDir html scripts styles entryPath fs = (fs', Fs.Ok tt) →
  scripts !! i = Some s →
  fs' !! Path.join outDir (script_name i) = Some (Fs.File s).
Proof.
  unfold Emit.emit. intros Hrun Hi.
  apply bind_Ok in Hrun as (fs1 & [] & _ & Hrun).
  apply bind_Ok in Hrun as (fs2 & [] & _ & Hrun).
  apply bind_Ok in Hrun as (fs3 & [] & _ & Hrun).
  apply bind_Ok in Hrun as (fs4 & [] & Hscripts & Hstyles).
  rewrite (touches_write_each _ _ _ _ _ _ _ Hstyles).
  - apply (write_each_Ok _ 0 _ _ _
             ltac:(intros j k Heq%join_inj; [by apply script_name_inj
                     |apply script_name_is_file_name..])
             Hscripts i s Hi).
  - intros (k & _ & Heq).
    apply (join_inj outDir (script_name i) (style_name k)) in Heq;
      [by apply script_name_is_no_style in Heq
      |apply script_name_is_file_name|apply style_name_is_file_name].
Qed.

Lemma emit_Ok_style outDir html scripts styles entryPath fs fs' i s :
  Emit.emit outDir html scripts styles entryPath fs = (fs', Fs.Ok tt) →
  styles !! i = Some s →
  fs' !! Path.join outDir (style_name i) = Some (Fs.File s).
Proof.
  unfold Emit.emit. intros Hrun Hi.
  apply bind_Ok in Hrun as (fs1 & [] & _ & Hrun).
  apply bind_Ok in Hrun as (fs2 & [] & _ & Hrun).
  apply bind_Ok in Hrun as (fs3 & [] & _ & Hrun).
  apply bind_Ok in Hrun as (fs4 & [] & _ & Hstyles).
  apply (write_each_Ok _ 0 _ _ _
           ltac:(intros j k Heq%join_inj; [by apply style_name_inj
                   |apply style_name_is_file_name..])
           Hstyles i s Hi).
Qed.

End side_files_of_emit.

Section compile_index_facts.
Import Dom Parse ParseSpec SplitSpec EmitSpec.
Variable parse5_parse : string → node.
Variable parse5_serialize : node → string.
Variable JSON_stringify : list string → string.

Lemma content_blocks_from k ns :
  map content (blocks_from k ns) = map extractTextContent ns.
Proof.
  revert k. induction ns as [|n ns IH]; intros k; [done|].
  cbn [blocks_from map]. by rewrite IH.
Qed.

(** The older [compile], when it returns, has read the entry and written,
    under the output root: in [index.html] the serialised document with its
    event attributes rewritten, its script and style elements stripped and
    the links of [emit] put in; in [script-<i>.js] the text of the [i]-th
    script element with content, followed by the event runtime for the sorted
    event words of the document; in [style-<i>.css] the text of the [i]-th
    style element with content. *)
Theorem compile_index_writes_page (entry outDir : string) (fs fs' : Fs.FS) :
  CompilerIndex.compile parse5_parse parse5_serialize JSON_stringify
    entry outDir fs = (fs', Fs.Ok tt) →
  ∃ source,
    fs !! Path.normalize entry = Some (Fs.File source) ∧
    let document := parse5_parse source in
    let runtime :=
      Event.generateEventBindingRuntime JSON_stringify
        (Split.sort (add_all (event_words document) [])) in
    let scripts :=
      map (λ n, extractTextContent n +:+ Js.nl +:+ Js.nl +:+ runtime)
        (cataloged_elements "script" document) in
    let styles :=
      map extractTextContent (cataloged_elements "style" document) in
    fs' !! (Path.normalize outDir ++ ["index.html"])
    = Some (Fs.File
              (Emit.outputHTML
                 (Split.stripScriptAndStyleTags
                    (parse5_serialize (map_attrs marker_of document)))
                 scripts styles)) ∧
    (∀ i s, scripts !! i = Some s →
            fs' !! (Path.normalize outDir ++ [script_name i])
            = Some (Fs.File s)) ∧
    (∀ i s, styles !! i = Some s →
            fs' !! (Path.normalize outDir ++ [style_name i])
            = Some (Fs.File s)).
Proof.
  unfold CompilerIndex.compile. intros Hrun.
  apply bind_Ok in Hrun as (fs1 & zen & Hparse & Hemit).
  unfold parseZen, mbind, io_bind, Fs.bind, Fs.readFileSync in Hparse.
  destruct (fs !! Path.normalize entry) as [[source|]|] eqn:Hread; [|done..].
  injection Hparse as <- <-. exists source. split; [done|].
  set (document := parse5_parse source) in *.
  set (runtime := Event.generateEventBindingRuntime JSON_stringify
                    (Split.sort (add_all (event_words document) []))).
  set (scripts := map (λ n, extractTextContent n +:+ Js.nl +:+ Js.nl +:+ runtime)
                    (cataloged_elements "script" document)).
  set (styles := map extractTextContent (cataloged_elements "style" document)).
  rewrite walk_extend in Hemit.
  unfold Split.splitZen, Split.transformEventAttributes in Hemit.
  cbn [html Parse.scripts Parse.styles st_scripts st_styles extend
       scriptIndex stylesIndex] in Hemit.
  rewrite walk_spec in Hemit.
  cbn [Split.html Split.scripts Split.styles Split.eventTypes] in Hemit.
  rewrite !app_nil_l, !content_blocks_from in Hemit.
  fold (cataloged_elements "script" document) in Hemit.
  fold (cataloged_elements "style" document) in Hemit.
  change (Emit.emit outDir
            (Split.stripScriptAndStyleTags
               (parse5_serialize (map_attrs marker_of document)))
            (CompilerIndex.scriptsWithEvents runtime
               (map extractTextContent (cataloged_elements "script" document)))
            styles (Some entry) fs = (fs', Fs.Ok tt)) in Hemit.
  assert (CompilerIndex.scriptsWithEvents runtime
            (map extractTextContent (cataloged_elements "script" document))
          = scripts) as Hscripts.
  { unfold CompilerIndex.scriptsWithEvents, scripts, runtime.
    rewrite generateEventBindingRuntime_truthy. by rewrite map_map. }
  rewrite Hscripts in Hemit.
  split_and!.
  - rewrite <-join_file_name by apply index_html_is_file_name.
    apply (emit_writes_index_html _ _ _ _ _ _ _ Hemit).
  - intros i s Hi.
    rewrite <-join_file_name by apply script_name_is_file_name.
    by apply (emit_Ok_script _ _ _ _ _ _ _ _ _ Hemit).
  - intros i s Hi.
    rewrite <-join_file_name by apply style_name_is_file_name.
    by apply (emit_Ok_style _ _ _ _ _ _ _ _ _ Hemit).
Qed.

End compile_index_facts.

Lemma compile_index_writes_page_witness :
  let run := CompilerIndex.compile Sample.parse Sample.serialize (λ _, "[]")
               Sample.index_page Build.outDir Sample.sources in
  run.2 = Fs.Ok tt ∧
  run.1 !! ["playground"; "dist"; "script-1.js"]
  = Some (Fs.File ("two()" +:+ Js.nl +:+ Js.nl
                     +:+ Event.generateEventBindingRuntime (λ _, "[]") [])).
Proof.
  intros run.
  assert (run.2 = Fs.Ok tt) as Hreturns by (vm_compute; reflexivity).
  assert (run = (run.1, Fs.Ok tt)) as Hrun
    by (rewrite <-Hreturns; apply surjective_pairing).
  split; [done|].
  destruct (compile_index_writes_page _ _ _ _ _ _ _ Hrun)
    as (source & Hread & _ & Hscripts & _).
  vm_compute in Hread. injection Hread as <-.
  apply (Hscripts 1). reflexivity.
Defined.

(* ===================================================================== *)
(** * The pages [discoverPages] finds *)
(* ===================================================================== *)



Section discover_facts.
Import Discover DiscoverSpec.

Lemma elem_of_readdir dir fs name e :
  (name, e) ∈ omap (child_of dir) (map_to_list fs) ↔
  fs !! (dir ++ [name]) = Some e.
Proof.
  rewrite list_elem_of_omap. split.
  - intros ([k e'] & Hin%elem_of_map_to_list & Hchild).
    unfold child_of in Hchild. cbn [fst snd] in Hchild.
    destruct (last k) as [name'|]; [|done].
    case_decide as Hk; [|done]. injection Hchild as -> ->. by rewrite <-Hk.
  - intros Hlookup. exists (dir ++ [name], e). split.
    + by apply elem_of_map_to_list.
    + unfold child_of. cbn [fst snd]. rewrite last_snoc.
      by rewrite decide_True.
Qed.

Lemma below_child dir name fs :
  fs !! (dir ++ [name]) = Some Fs.Dir →
  size (below (dir ++ [name]) fs) < size (below dir fs).
Proof.
  intros Hdir. apply map_subset_size. split.
  - apply map_subseteq_spec. intros k e.
    unfold below. rewrite !map_lookup_filter_Some. cbn [fst].
    intros (Hk & Hpre & Hne). split; [done|]. split.
    + etrans; [|exact Hpre]. by apply prefix_app_r.
    + intros ->. apply prefix_length in Hpre.
      rewrite length_app in Hpre. simpl in Hpre. lia.
  - intros Hsub. rewrite map_subseteq_spec in Hsub.
    specialize (Hsub (dir ++ [name]) Fs.Dir).
    unfold below in Hsub. rewrite !map_lookup_filter_Some in Hsub.
    cbn [fst] in Hsub. destruct Hsub as (_ & _ & Hne); [|done].
    split; [done|]. split; [by apply prefix_app_r|].
    intros Heq. apply (f_equal length) in Heq.
    rewrite length_app in Heq. simpl in Heq. lia.
Qed.

(** The loop, when every call on a subdirectory returns. *)
Lemma each_entry_spec recurse dir entries fs (found_in : list string → list string) :
  (∀ name, (name, Fs.Dir) ∈ entries →
           recurse (dir ++ [name]) fs = (fs, Fs.Ok (found_in (dir ++ [name])))) →
  ∃ pages,
    each_entry recurse dir entries fs = (fs, Fs.Ok pages) ∧
    ∀ page, page ∈ pages ↔
      (∃ name content, (name, Fs.File content) ∈ entries ∧
                       Js.endsWith name ".zen" = true ∧
                       page = format (dir ++ [name])) ∨
      (∃ name, (name, Fs.Dir) ∈ entries ∧ page ∈ found_in (dir ++ [name])).
Proof.
  induction entries as [|[name e] rest IH]; intros Hrec.
  - exists []. split; [done|]. intros page. split.
    + by intros ?%elem_of_nil.
    + intros [(? & ? & ?%elem_of_nil & _)|(? & ?%elem_of_nil & _)]; done.
  - destruct IH as (pages & Hrun & Hpages).
    { intros other Hin. apply Hrec. by apply list_elem_of_further. }
    cbn [each_entry]. destruct e as [content|].
    + destruct (Js.endsWith name ".zen") eqn:Hzen.
      * exists (format (dir ++ [name]) :: pages). split.
        { unfold mbind, io_bind, Fs.bind. by rewrite Hrun. }
        intros page. rewrite elem_of_cons, Hpages. split.
        -- intros [->|[(n & c & Hin & Hz & ->)|(n & Hin & Hp)]].
           ++ left. exists name, content. split; [apply list_elem_of_here|done].
           ++ left. exists n, c. split; [by apply list_elem_of_further|done].
           ++ right. exists n. split; [by apply list_elem_of_further|done].
        -- intros [(n & c & Hin & Hz & ->)|(n & Hin & Hp)].
           ++ apply elem_of_cons in Hin as [[= -> ->]|Hin]; [by left|].
              right. left. by exists n, c.
           ++ apply elem_of_cons in Hin as [[=]|Hin].
              right. right. by exists n.
      * exists pages. split; [done|]. intros page. rewrite Hpages. split.
        -- intros [(n & c & Hin & Hz & ->)|(n & Hin & Hp)].
           ++ left. exists n, c. split; [by apply list_elem_of_further|done].
           ++ right. exists n. split; [by apply list_elem_of_further|done].
        -- intros [(n & c & Hin & Hz & ->)|(n & Hin & Hp)].
           ++ apply elem_of_cons in Hin as [[= -> ->]|Hin];
                [by rewrite Hz in Hzen|].
              left. by exists n, c.
           ++ apply elem_of_cons in Hin as [[=]|Hin].
              right. by exists n.
    + exists (found_in (dir ++ [name]) ++ pages). split.
      { unfold mbind, io_bind, Fs.bind.
        rewrite (Hrec name) by apply list_elem_of_here. by rewrite Hrun. }
      intros page. rewrite elem_of_app, Hpages. split.
      * intros [Hp|[(n & c & Hin & Hz & ->)|(n & Hin & Hp)]].
        -- right. exists name. split; [apply list_elem_of_here|done].
        -- left. exists n, c. split; [by apply list_elem_of_further|done].
        -- right. exists n. split; [by apply list_elem_of_further|done].
      * intros [(n & c & Hin & Hz & ->)|(n & Hin & Hp)].
        -- apply elem_of_cons in Hin as [[=]|Hin].
           right. left. by exists n, c.
        -- apply elem_of_cons in Hin as [[= ->]|Hin]; [by left|].
           right. right. by exists n.
Qed.

Lemma discoverPages_within_spec depth dir fs :
  Fs.is_dir fs dir = true → size (below dir fs) < depth →
  ∃ pages,
    discoverPages_within depth dir fs = (fs, Fs.Ok pages) ∧
    ∀ page, page ∈ pages ↔ ∃ p, page_under fs dir p ∧ page = format p.
Proof.
  revert dir. induction depth as [|depth IH]; intros dir Hdir Hsize; [lia|].
  cbn [discoverPages_within]. unfold mbind, io_bind, Fs.bind, readdirSync.
  rewrite Hdir.
  set (found_in := λ p, match discoverPages_within depth p fs with
                        | (_, Fs.Ok pages) => pages
                        | _ => []
                        end).
  assert (∀ name, fs !! (dir ++ [name]) = Some Fs.Dir →
            discoverPages_within depth (dir ++ [name]) fs
            = (fs, Fs.Ok (found_in (dir ++ [name]))) ∧
            ∀ page, page ∈ found_in (dir ++ [name]) ↔
                    ∃ p, page_under fs (dir ++ [name]) p ∧ page = format p)
    as Hsub.
  { intros name Hchild. destruct (IH (dir ++ [name])) as (pages & Hrun & Hpages).
    - unfold Fs.is_dir. by rewrite Hchild, orb_true_r.
    - pose proof (below_child dir name fs Hchild). lia.
    - unfold found_in. by rewrite Hrun. }
  destruct (each_entry_spec (discoverPages_within depth) dir
              (omap (child_of dir) (map_to_list fs)) fs found_in)
    as (pages & Hrun & Hpages).
  { intros name Hin%elem_of_readdir. by apply Hsub. }
  exists pages. split; [done|]. intros page. rewrite Hpages. split.
  - intros [(name & content & Hin%elem_of_readdir & Hzen & ->)
           |(name & Hin%elem_of_readdir & Hp)].
    + exists (dir ++ [name]). split; [by eapply page_here|done].
    + apply Hsub in Hp as (p & Hunder & ->); [|done].
      exists p. split; [by eapply page_below|done].
  - intros (p & Hunder & ->). inversion Hunder as [d name content Hfile Hzen|
                                                   d name q Hchild Hbelow]; subst.
    + left. exists name, content. by rewrite elem_of_readdir.
    + right. exists name. rewrite elem_of_readdir. split; [done|].
      apply Hsub; [done|]. by exists p.
Qed.

End discover_facts.

(** [discoverPages] on a directory returns, leaves the disk as it is, and
    lists exactly the files with the extension [.zen] in that directory and
    in the directories below it; on anything else it throws. *)
Theorem discoverPages_finds_pages (dir : string) (fs : Fs.FS) :
  if Fs.is_dir fs (Path.normalize dir) then
    ∃ pages,
      Discover.discoverPages dir fs = (fs, Fs.Ok pages) ∧
      ∀ page, page ∈ pages ↔
              ∃ p, DiscoverSpec.page_under fs (Path.normalize dir) p ∧
                   page = Discover.format p
  else Discover.discoverPages dir fs = (fs, Fs.Throw).
Proof.
  destruct (Fs.is_dir fs (Path.normalize dir)) eqn:Hdir.
  - apply discoverPages_within_spec; [done|].
    pose proof (map_size_filter
                  (λ kv : list string * Fs.entry,
                     Path.normalize dir `prefix_of` kv.1
                     ∧ kv.1 ≠ Path.normalize dir) fs) as Hle.
    unfold DiscoverSpec.below. lia.
  - unfold Discover.discoverPages. cbn [Discover.discoverPages_within].
    unfold mbind, io_bind, Fs.bind, Discover.readdirSync. by rewrite Hdir.
Qed.

Example discoverPages_sample :
  (Discover.discoverPages Build.pagesDir Sample.sources).2
  = Fs.Ok ["playground/pages/index.zen"; "playground/pages/about.zen"].
Proof. vm_compute. reflexivity. Qed.

(* ===================================================================== *)
(** * The routes of the discovered pages *)
(* ===================================================================== *)

Section discovered_route_facts.
Import EmitSpec.








End discovered_route_facts.



(* ===================================================================== *)
(** * Compiling the same page again *)
(* ===================================================================== *)

Section again_facts.
Import FsSpec EmitSpec.

(** [mkdir_each] changes the disk only where it makes a directory. *)
Lemma mkdir_each_frame made todo fs fs' r q :
  Fs.mkdir_each made todo fs = (fs', r) →
  (∀ k, 1 ≤ k ≤ length todo → q ≠ made ++ take k todo) →
  fs' !! q = fs !! q.
Proof.
  revert made fs. induction todo as [|seg todo IH]; intros made fs Hrun Hq.
  - by injection Hrun as <- _.
  - cbn [Fs.mkdir_each] in Hrun.
    assert (q ≠ made ++ [seg]) as Hhere.
    { apply (Hq 1). simpl. lia. }
    assert (∀ k, 1 ≤ k ≤ length todo → q ≠ (made ++ [seg]) ++ take k todo)
      as Hrest.
    { intros k Hk. rewrite <-app_assoc. apply (Hq (S k)). simpl. lia. }
    destruct (fs !! (made ++ [seg])) as [[content|]|].
    + by injection Hrun as <- _.
    + by apply (IH _ _ Hrun).
    + destruct (Fs.is_root (made ++ [seg])).
      * by apply (IH _ _ Hrun).
      * rewrite (IH _ _ Hrun Hrest). by rewrite lookup_insert_ne.
Qed.

(** On a disk that already holds what an earlier [mkdir_each] made, all but
    the last directory, [mkdir_each] makes the same disk again. *)
Lemma mkdir_each_again made todo fsA fsB made_disk :
  Fs.mkdir_each made todo fsA = (made_disk, Fs.Ok tt) →
  (∀ q, q ≠ made ++ todo → fsB !! q = made_disk !! q) →
  fsB !! (made ++ todo) = fsA !! (made ++ todo) →
  Fs.mkdir_each made todo fsB = (made_disk, Fs.Ok tt).
Proof.
  revert made fsA fsB.
  induction todo as [|seg todo IH]; intros made fsA fsB Hrun Hother Htarget.
  - injection Hrun as <-. cbn [Fs.mkdir_each]. unfold Fs.ret. f_equal.
    apply map_eq. intros q. destruct (decide (q = made ++ [])) as [->|Hne];
      [done|by apply Hother].
  - cbn [Fs.mkdir_each] in Hrun |- *.
    assert (made ++ seg :: todo = (made ++ [seg]) ++ todo) as Hsplit
      by by rewrite <-app_assoc.
    rewrite Hsplit in Hother, Htarget.
    destruct (decide (todo = [])) as [->|Htodo].
    + (* the last directory *)
      rewrite app_nil_r in Hother, Htarget. rewrite Htarget.
      destruct (fsA !! (made ++ [seg])) as [[content|]|] eqn:Hhere; [done|..].
      * apply (IH _ fsA); [done|by rewrite app_nil_r|].
        rewrite app_nil_r. congruence.
      * destruct (Fs.is_root (made ++ [seg])).
        -- apply (IH _ fsA); [done|by rewrite app_nil_r|].
           rewrite app_nil_r. congruence.
        -- apply (IH _ (<[made ++ [seg] := Fs.Dir]> fsA)); [done|..].
           ++ rewrite app_nil_r. intros q Hq.
              rewrite lookup_insert_ne by done. by apply Hother.
           ++ rewrite app_nil_r. by rewrite !lookup_insert_eq.
    + (* a directory on the way *)
      assert (made ++ [seg] ≠ (made ++ [seg]) ++ todo) as Hway.
      { intros Heq. apply (f_equal length) in Heq.
        destruct todo; [done|]. rewrite !length_app in Heq. simpl in Heq. lia. }
      rewrite (Hother _ Hway).
      destruct (fsA !! (made ++ [seg])) as [[content|]|] eqn:Hhere; [done|..].
      * rewrite (mkdir_each_keeps _ _ _ _ _ _ _ Hrun Hhere).
        by apply (IH _ fsA).
      * destruct (Fs.is_root (made ++ [seg])) eqn:Hroot.
        -- rewrite (mkdir_each_frame _ _ _ _ _ _ Hrun), Hhere, ?Hroot.
           ++ by apply (IH _ fsA).
           ++ intros k Hk Heq. apply (f_equal length) in Heq.
              rewrite !length_app, length_take in Heq. simpl in Heq. lia.
        -- rewrite (mkdir_each_keeps _ _ _ _ _ _ Fs.Dir Hrun)
             by apply lookup_insert_eq.
           apply (IH _ (<[made ++ [seg] := Fs.Dir]> fsA)); [done..|].
           by rewrite lookup_insert_ne.
Qed.

(** What follows the making of the output root in [emit] changes the disk
    only under that root. *)
Lemma emit_tail_outside outDir html scripts styles entryPath fs fs' r q :
  (Emit.copy_favicon outDir entryPath;;
   Fs.writeFileSync (Path.join outDir "index.html")
     (Emit.outputHTML html scripts styles);;
   Emit.write_each
     (λ i, Path.join outDir ("script-" +:+ Js.of_nat i +:+ ".js")) 0 scripts;;
   Emit.write_each
     (λ i, Path.join outDir ("style-" +:+ Js.of_nat i +:+ ".css")) 0 styles)
    fs = (fs', r) →
  ¬ Path.normalize outDir `prefix_of` q →
  fs' !! q = fs !! q.
Proof.
  intros Hrun Hq.
  match type of Hrun with
  | ?tail fs = _ =>
      assert (touches tail (λ q, ∃ name, file_name name ∧
                                         q = Path.join outDir name)) as Htouch
  end.
  2:{ apply (Htouch _ _ _ q Hrun). intros (name & Hname & ->). apply Hq.
      rewrite join_file_name by done. by apply prefix_app_r. }
  apply touches_bind; [|intros _; apply touches_bind;
    [|intros _; apply touches_bind; [|intros _]]].
  - eapply touches_weaken; [apply touches_copy_favicon|].
    intros p ->. exists "favicon.ico". split; [apply favicon_is_file_name|done].
  - eapply touches_weaken; [apply touches_writeFileSync|].
    intros p ->. exists "index.html". split; [apply index_html_is_file_name|done].
  - eapply touches_weaken; [apply touches_write_each|].
    intros p (k & _ & ->). exists (script_name k).
    split; [apply script_name_is_file_name|done].
  - eapply touches_weaken; [apply touches_write_each|].
    intros p (k & _ & ->). exists (style_name k).
    split; [apply style_name_is_file_name|done].
Qed.

Lemma cleared_lookup_outside p fs q :
  ¬ p `prefix_of` q → cleared p fs !! q = fs !! q.
Proof.
  intros Hq. unfold cleared. destruct (fs !! q) as [e|] eqn:Hfs.
  - by apply map_lookup_filter_Some.
  - apply map_lookup_filter_None. by left.
Qed.

End again_facts.

Section again_theorem.
Import FsSpec EmitSpec.
Variable parse5_parse : string → Dom.node.
Variable parse5_serialize : Dom.node → string.
Variable JSON_stringify : list string → string.
Variable processComponents :
  Parse.ZenFile → string → Fs.FS → Fs.result Parse.ZenFile.
Variable binding_descriptors : Type.
Variable splitZen_bindings : Parse.ZenFile → binding_descriptors.
Variable generateBindingRuntime : binding_descriptors → string.
Variable generateAttributeBindingRuntime : binding_descriptors → string.

Local Abbreviation compile :=
  (Compiler.compile parse5_parse parse5_serialize
     JSON_stringify processComponents binding_descriptors splitZen_bindings
     generateBindingRuntime generateAttributeBindingRuntime).

(** Compiling the same page again changes nothing: when [compile] has
    returned on a disk that held the output root, and [processComponents]
    gives for the page what it gave before, a second [compile] of the page
    returns and leaves the disk exactly as the first left it. *)
Theorem compile_again_same_disk (entry outDir : string) (fs fs1 : Fs.FS) :
  compile entry outDir fs = (fs1, Fs.Ok tt) →
  Fs.exists_text fs outDir = true →
  (∀ zen, processComponents zen entry (cleared (Path.normalize outDir) fs1)
          = processComponents zen entry (cleared (Path.normalize outDir) fs)) →
  compile entry outDir fs1 = (fs1, Fs.Ok tt).
Proof.
  intros Hrun Hexists Hsame.
  assert (outDir ≠ "") as HoutDir.
  { intros ->. unfold Fs.exists_text in Hexists. by rewrite decide_True in Hexists. }
  pose proof (compile_Ok_root_exists parse5_parse parse5_serialize
                JSON_stringify processComponents binding_descriptors
                splitZen_bindings generateBindingRuntime
                generateAttributeBindingRuntime _ _ _ _ Hrun HoutDir)
    as Hexists1.
  apply (compile_Ok_emit parse5_parse parse5_serialize JSON_stringify
           processComponents binding_descriptors splitZen_bindings
           generateBindingRuntime generateAttributeBindingRuntime)
    in Hrun as (zen & processedZen & Hparse & Hproc & Hemit).
  rewrite Hexists in Hparse, Hproc, Hemit.
  set (root := Path.normalize outDir) in *.
  set (fs0 := cleared root fs) in *.
  set (fs2 := cleared root fs1).
  (* the first [emit]: the output root is made, then the files are written *)
  unfold Emit.emit in Hemit.
  apply bind_Ok in Hemit as (made_disk & [] & Hmkdir & Htail).
  (* the entry *)
  unfold Parse.parseZen, mbind, io_bind, Fs.bind, Fs.readFileSync in Hparse.
  destruct (fs0 !! Path.normalize entry) as [[source|]|] eqn:Hread; [|done..].
  assert (¬ root `prefix_of` Path.normalize entry) as Hentry.
  { intros Hunder. unfold fs0 in Hread.
    by rewrite cleared_lookup_below in Hread. }
  (* the disk the second [compile] works on *)
  assert (∀ q, q ≠ root → fs2 !! q = made_disk !! q) as Hother.
  { intros q Hq. unfold fs2. destruct (decide (root `prefix_of` q)) as [Hunder|Hout].
    - rewrite cleared_lookup_below by done. symmetry.
      rewrite (touches_mkdir_each _ _ _ _ _ _ Hmkdir).
      + by apply cleared_lookup_below.
      + intros Habove. apply Hq. by apply (anti_symm prefix).
    - rewrite cleared_lookup_outside by done.
      by apply (emit_tail_outside _ _ _ _ _ _ _ _ _ Htail). }
  assert (fs2 !! root = fs0 !! root) as Hroot.
  { unfold fs2, fs0. by rewrite !cleared_lookup_below. }
  assert (fs2 !! Path.normalize entry = Some (Fs.File source)) as Hread2.
  { rewrite Hother by (intros Heq; apply Hentry; by rewrite Heq).
    by apply (mkdir_each_keeps _ _ _ _ _ _ _ Hmkdir). }
  (* the second [compile] *)
  unfold Compiler.compile, mbind, io_bind, Fs.bind.
  rewrite clear_outDir_run, Hexists1. fold root fs2.
  unfold Parse.parseZen, mbind, io_bind, Fs.bind, Fs.readFileSync.
  rewrite Hread2. cbn [mret io_ret Fs.ret].
  injection Hparse as <-.
  rewrite Hsame. fold fs0. rewrite Hproc.
  unfold Emit.emit, mbind, io_bind, Fs.bind.
  unfold Fs.mkdirSync_recursive in Hmkdir |- *.
  pose proof (mkdir_each_again [] root fs0 fs2 made_disk Hmkdir Hother Hroot)
    as Hagain.
  unfold root in Hagain. rewrite Hagain.
  exact Htail.
Qed.

End again_theorem.

Lemma compile_again_same_disk_witness :
  let first := Sample.compile Sample.about_page Build.outDir Sample.after_home in
  first.2 = Fs.Ok tt ∧
  Sample.compile Sample.about_page Build.outDir first.1 = (first.1, Fs.Ok tt).
Proof.
  intros first.
  assert (first.2 = Fs.Ok tt) as Hreturns by (vm_compute; reflexivity).
  assert (first = (first.1, Fs.Ok tt)) as Hrun
    by (rewrite <-Hreturns; apply surjective_pairing).
  split; [done|].
  apply (compile_again_same_disk Sample.parse Sample.serialize (λ _, "[]")
           (λ zen _ _, Fs.Ok zen) unit (λ _, tt) (λ _, "") (λ _, "")
           Sample.about_page Build.outDir Sample.after_home first.1 Hrun).
  - vm_compute. reflexivity.
  - done.
Defined.
